(** * Heritage-risk pipeline: the scoring, joining and filtering code, embedded and verified

    The development follows [scripts/heritage_risk_assessment.py],
    [scripts/cemaden_collector.py] and the coordinate filters of
    [scripts/final_clean_fire_points.py], [scripts/deep_coordinate_check.py]
    and [scripts/inpe_collector.py].

    Python numbers are kept behind an interface ([Num]) with two instances:
    IEEE binary64 (what CPython computes with) and the canonical rationals
    (what the arithmetic would be without rounding).  Functions are written
    once, over the interface; a statement that depends on rounding is settled
    on the binary64 instance, an algebraic law on any instance that has it. *)

From Stdlib Require Import ZArith QArith Qcanon Lqa Floats Uint63 String Ascii List Permutation Lia.
From stdpp Require Import base decidable option list gmap strings.

Set Warnings "-inexact-float".
Local Open Scope Z_scope.

(** ** Numbers *)

Class Num (F : Type) := {
  of_int : Z -> F;
  add : F -> F -> F;
  sub : F -> F -> F;
  mul : F -> F -> F;
  div : F -> F -> F;
  leb : F -> F -> bool;
  ltb : F -> F -> bool
}.

(** A decimal literal [n/d] of the source, such as [1.5 = dec 15 10]. *)
Definition dec {F} `{Num F} (n d : Z) : F := div (of_int n) (of_int d).

(** Python's [min(x, y)]: the first argument unless the second is smaller. *)
Definition pymin {F} `{Num F} (x y : F) : F := if ltb y x then y else x.

Module Binary64.
(** Conversion of a Python [int] to [float]; exact below [2^53]. *)
Definition of_Z (z : Z) : float :=
  if Z.ltb z 0 then PrimFloat.opp (PrimFloat.of_uint63 (Uint63.of_Z (Z.opp z)))
  else PrimFloat.of_uint63 (Uint63.of_Z z).

#[global] Instance num : Num float := {|
  of_int := of_Z;
  add := PrimFloat.add;
  sub := PrimFloat.sub;
  mul := PrimFloat.mul;
  div := PrimFloat.div;
  leb := PrimFloat.leb;
  ltb := PrimFloat.ltb
|}.
End Binary64.

Module Exact.
#[global] Instance num : Num Qc := {|
  of_int := fun z => Q2Qc (inject_Z z);
  add := Qcplus;
  sub := Qcminus;
  mul := Qcmult;
  div := Qcdiv;
  leb := fun x y => Qle_bool (this x) (this y);
  ltb := fun x y => negb (Qle_bool (this y) (this x))
|}.
End Exact.

(** ** Alert records (one row of [real_time_cemaden_data.json]) *)

Record alert := {
  municipio : string;
  uf : string;
  tipo_alerta : string;
  nivel : string;
  abertura : string;
  timestamp : Z
}.

(** ** heritage_risk_assessment.py: the scoring tables *)

Definition risk_scores : gmap string Z :=
  list_to_map [("Muito Alto"%string, 5); ("Alto"%string, 4); ("Moderado"%string, 3);
               ("Baixo"%string, 2); ("Muito Baixo"%string, 1)].

Section Assessment.
Context {F : Type} `{Num F}.

Definition risk_weights : gmap string F :=
  list_to_map [("Risco Hidrológico"%string, dec 12 10);
               ("Risco Geológico"%string, dec 15 10);
               ("Mov. Massa"%string, dec 15 10);
               ("Risco Hidro"%string, dec 12 10);
               ("Fire Risk"%string, dec 13 10);
               ("Dam Proximity"%string, dec 14 10)].

(** *** _calculate_municipal_cemaden_risk *)

Record municipal_risk := {
  municipality : string;
  mr_uf : string;
  cemaden_risk_score : F;
  cemaden_alerts : nat
}.

Definition base_score (a : alert) : Z := default 2 (risk_scores !! nivel a).
Definition weight (a : alert) : F := default (dec 10 10) (risk_weights !! tipo_alerta a).

(** The body of the inner loop: [risk_score += base_score * weight]. *)
Definition accumulate (risk_score : F) (a : alert) : F :=
  add risk_score (mul (of_int (base_score a)) (weight a)).

Definition group_risk_score (group : list alert) : F :=
  fold_left accumulate group (of_int 0).

(** [disaster_df.groupby(['municipio', 'uf'])]: the distinct keys in sorted
    order, each with its rows in the order of the frame. *)
Definition key : Type := string * string.
Definition key_of (a : alert) : key := (municipio a, uf a).

Definition key_leb (k1 k2 : key) : bool :=
  match String.compare k1.1 k2.1 with
  | Lt => true
  | Gt => false
  | Eq => String.leb k1.2 k2.2
  end.

Fixpoint insert_key (k : key) (ks : list key) : list key :=
  match ks with
  | [] => [k]
  | k' :: rest => if key_leb k k' then k :: ks else k' :: insert_key k rest
  end.

Definition sort_keys (ks : list key) : list key := foldr insert_key [] ks.

Definition group_keys (df : list alert) : list key :=
  sort_keys (remove_dups (key_of <$> df)).

Definition get_group (df : list alert) (k : key) : list alert :=
  filter (fun a => key_of a = k) df.

Definition groupby (df : list alert) : list (key * list alert) :=
  (fun k => (k, get_group df k)) <$> group_keys df.

Definition municipal_row (k : key) (group : list alert) : municipal_risk :=
  {| municipality := k.1;
     mr_uf := k.2;
     cemaden_risk_score := pymin (div (group_risk_score group) (of_int 2)) (of_int 10);
     cemaden_alerts := length group |}.

Definition _calculate_municipal_cemaden_risk (disaster_df : list alert)
  : list municipal_risk :=
  (fun kg => municipal_row kg.1 kg.2) <$> groupby disaster_df.

(** The row of a [(municipality, uf)] key, as the left merge of
    [_combine_all_risks] finds it. *)
Definition municipal_lookup (rows : list municipal_risk) (k : key)
  : option municipal_risk :=
  List.find (fun r => bool_decide ((municipality r, mr_uf r) = k)) rows.

(** *** _categorize_risk_score *)

Definition _categorize_risk_score (score : F) : string :=
  if leb (of_int 8) score then "Muito Alto"
  else if leb (of_int 6) score then "Alto"
  else if leb (of_int 4) score then "Moderado"
  else if leb (of_int 2) score then "Baixo"
  else "Muito Baixo".

(** *** Geometry

    Points are [(longitude, latitude)] pairs in EPSG:4326 degrees.  The
    shapely/GEOS kernel is an interface: the [within] predicate of
    [gpd.sjoin], [GeoSeries.distance] and [GeoSeries.buffer]. *)

Definition point : Type := F * F.

Class Geometry (G : Type) := {
  within : point -> G -> bool;
  distance : G -> point -> F;
  buffer : G -> F -> G
}.

Context {G : Type} `{Geometry G}.

(** A row of the heritage frame.  [idx] is its index label ([gpd.read_file]
    numbers the rows); [geometry] is [None] for a missing or empty
    geometry. *)
Record heritage_site := {
  idx : nat;
  site_name : string;
  geometry : option point
}.

Record boundary := {
  b_municipality : string;
  b_uf : string;
  b_geometry : G
}.

(** [gpd.sjoin(left, right, how='left', predicate='within')]: one row per
    (left row, right row) pair whose geometries match, carrying the
    position [index_right] of the right row, and one row with a missing
    [index_right] for a left row that matches nothing. *)
Definition sjoin_left {L R : Type} (geom_l : L -> option point) (geom_r : R -> G)
    (left : list L) (right : list R) : list (L * option (nat * R)) :=
  left ≫= (fun l =>
    match geom_l l with
    | None => [(l, None)]
    | Some p =>
        match List.filter (fun ir => within p (geom_r ir.2)) (imap pair right) with
        | [] => [(l, None)]
        | matches => (fun ir => (l, Some ir)) <$> matches
        end
    end).

(** *** _spatial_join_heritage_municipalities *)

Record admin_row := {
  ar_site : heritage_site;
  ar_municipality : option string;   (* [None] is pandas' NaN *)
  ar_uf : option string
}.

(** A row of the join that matched nothing, and one that matched [b]. *)
Definition unmatched_row (s : heritage_site) : admin_row :=
  {| ar_site := s; ar_municipality := None; ar_uf := None |}.

Definition matched_row (s : heritage_site) (b : boundary) : admin_row :=
  {| ar_site := s; ar_municipality := Some (b_municipality b); ar_uf := Some (b_uf b) |}.

(** [Series.idxmin()]: the position of the first smallest value; an empty
    series raises [ValueError]. *)
Fixpoint idxmin_from (best_i : nat) (best : F) (i : nat) (ds : list F) : nat :=
  match ds with
  | [] => best_i
  | d :: rest =>
      if ltb d best then idxmin_from i d (S i) rest
      else idxmin_from best_i best (S i) rest
  end.

Definition idxmin (ds : list F) : option nat :=
  match ds with
  | [] => None
  | d :: rest => Some (idxmin_from 0%nat d 1%nat rest)
  end.

Definition nearest_boundary (boundaries : list boundary) (p : point) : option boundary :=
  nearest_idx ← idxmin ((fun b => distance (b_geometry b) p) <$> boundaries);
  boundaries !! nearest_idx.

(** The body of the loop over [unmatched.index]. *)
Definition match_nearest (boundaries : list boundary) (row : admin_row) : admin_row :=
  match ar_municipality row with
  | Some _ => row
  | None =>
      match geometry (ar_site row) with
      | None => row                                   (* [continue] *)
      | Some p =>
          match nearest_boundary boundaries p with
          | Some b =>
              {| ar_site := ar_site row;
                 ar_municipality := Some (b_municipality b);
                 ar_uf := Some (b_uf b) |}
          | None =>                                   (* [except Exception] *)
              {| ar_site := ar_site row;
                 ar_municipality := Some "Unknown"%string;
                 ar_uf := Some "Unknown"%string |}
          end
      end
  end.

Definition joined_row (lr : heritage_site * option (nat * boundary)) : admin_row :=
  {| ar_site := lr.1;
     ar_municipality := (fun ir => b_municipality ir.2) <$> lr.2;
     ar_uf := (fun ir => b_uf ir.2) <$> lr.2 |}.

(** Both frames are in one coordinate system (the [to_crs] call has brought
    the sites to that of the boundaries), and the index labels of the heritage
    frame are distinct, so [.loc[idx, ...]] addresses the one row of an
    unmatched site. *)
Definition _spatial_join_heritage_municipalities
    (heritage_gdf : list heritage_site) (boundaries_gdf : list boundary)
  : list admin_row :=
  let heritage_with_admin :=
    joined_row <$> sjoin_left geometry b_geometry heritage_gdf boundaries_gdf in
  match_nearest boundaries_gdf <$> heritage_with_admin.

(** *** _calculate_dam_proximity_risk *)

Record dam_row := {
  dr_admin : admin_row;
  dam_risk_score : Z;
  nearest_dam_distance : option F      (* [None] is [np.inf] *)
}.

Definition dr_label (r : dam_row) : nat := idx (ar_site (dr_admin r)).

(** [Series.min()] of a non-empty series. *)
Definition series_min (ds : list F) : option F :=
  match ds with
  | [] => None
  | d :: rest => Some (fold_left (fun m x => if ltb x m then x else m) rest d)
  end.

(** [frame.loc[label, column] = value] through [update]: every row that
    carries the label is changed. *)
Definition loc_set (label : nat) (update : dam_row -> dam_row) (rows : list dam_row)
  : list dam_row :=
  (fun r => if Nat.eqb (dr_label r) label then update r else r) <$> rows.

Definition zone_label (z : admin_row * option (nat * G)) : nat := idx (ar_site z.1).

(** One turn of the loop over [heritage_in_dam_zones.index].  A label that
    heads several rows of the join makes [.loc[idx, 'index_right']] a
    Series, and [not pd.isna(...)] of it raises [ValueError]. *)
Definition dam_step (dam_gdf : list G) (zones : list (admin_row * option (nat * G)))
    (acc : option (list dam_row)) (z : admin_row * option (nat * G))
  : option (list dam_row) :=
  heritage ← acc;
  match List.filter (fun z' => Nat.eqb (zone_label z') (zone_label z)) zones with
  | [one] =>
      match one.2 with
      | None => Some heritage
      | Some _ =>
          let km :=
            site_point ← geometry (ar_site z.1);
            m ← series_min ((fun g => distance g site_point) <$> dam_gdf);
            Some (mul m (of_int 111)) in
          Some (loc_set (zone_label z)
                  (fun r => {| dr_admin := dr_admin r;
                               dam_risk_score := 3;
                               nearest_dam_distance := km |}) heritage)
      end
  | _ => None
  end.

(** [None] is the [ValueError] above, which the function does not catch. *)
Definition _calculate_dam_proximity_risk (heritage_gdf : list admin_row) (dam_gdf : list G)
  : option (list dam_row) :=
  let init :=
    (fun r => {| dr_admin := r; dam_risk_score := 0; nearest_dam_distance := None |})
      <$> heritage_gdf in
  match dam_gdf with
  | [] => Some init
  | _ =>
      let dam_buffers := (fun g => buffer g (dec 45 1000)) <$> dam_gdf in
      let heritage_in_dam_zones :=
        sjoin_left (fun r => geometry (ar_site r)) id heritage_gdf dam_buffers in
      fold_left (dam_step dam_gdf heritage_in_dam_zones) heritage_in_dam_zones (Some init)
  end.

(** *** The outcome of the dam loop, row by row

    What [_calculate_dam_proximity_risk] leaves in a row, for one dam: the
    row is in the dam's buffer or not. *)

Definition in_zone (zone : G) (r : admin_row) : bool :=
  match geometry (ar_site r) with
  | Some p => within p zone
  | None => false
  end.

Definition zone_row (zone : G) (r : admin_row) : admin_row * option (nat * G) :=
  (r, if in_zone zone r then Some (0%nat, zone) else None).

Definition no_dam_row (r : admin_row) : dam_row :=
  {| dr_admin := r; dam_risk_score := 0; nearest_dam_distance := None |}.

Definition near_dam_row (dam : G) (r : admin_row) : dam_row :=
  {| dr_admin := r;
     dam_risk_score := 3;
     nearest_dam_distance :=
       site_point ← geometry (ar_site r);
       Some (mul (distance dam site_point) (of_int 111)) |}.

Definition dam_result (dam : G) (r : admin_row) : dam_row :=
  if in_zone (buffer dam (dec 45 1000)) r then near_dam_row dam r else no_dam_row r.

(** The frame after the turns of the loop for the rows of [done]. *)
Definition dam_progress (dam : G) (done : list (admin_row)) (r : admin_row) : dam_row :=
  if bool_decide (idx (ar_site r) ∈ (fun r => idx (ar_site r)) <$> done)
  then dam_result dam r else no_dam_row r.

(** The point [km] kilometres due north of [p], by the conversion of the
    source ([distances.min() * 111]: 111 km to the degree). *)
Definition north_of (p : point) (km : F) : point :=
  (p.1, add p.2 (div km (of_int 111))).

(** *** _combine_all_risks *)

Record risk_row := {
  rr_dam : dam_row;
  fire_risk_score : Z
}.

Definition rr_key (h : risk_row) : option string * option string :=
  (ar_municipality (dr_admin (rr_dam h)), ar_uf (dr_admin (rr_dam h))).

Record final_row := {
  fr_row : risk_row;
  fr_cemaden_risk_score : F;
  fr_cemaden_alerts : nat;
  comprehensive_risk_score : F;
  comprehensive_risk_category : string;
  risk_color : option string
}.

Definition risk_colors : gmap string string :=
  list_to_map [("Muito Alto"%string, "#8B0000"%string); ("Alto"%string, "#FF0000"%string);
               ("Moderado"%string, "#FFA500"%string); ("Baixo"%string, "#FFFF00"%string);
               ("Muito Baixo"%string, "#90EE90"%string)].

(** [heritage_gdf.merge(municipal_cemaden_risk, on=['municipality', 'uf'],
    how='left')]. *)
Definition merge_left (heritage : list risk_row) (municipal : list municipal_risk)
  : list (risk_row * option municipal_risk) :=
  heritage ≫= (fun h =>
    match List.filter
            (fun r => bool_decide ((Some (municipality r), Some (mr_uf r)) = rr_key h))
            municipal with
    | [] => [(h, None)]
    | matches => (fun r => (h, Some r)) <$> matches
    end).

Definition weighted_total (cemaden : F) (dam fire : Z) : F :=
  add (add (mul cemaden (dec 4 10)) (mul (of_int dam) (dec 3 10)))
      (mul (of_int fire) (dec 3 10)).

Definition combined_row (hm : risk_row * option municipal_risk) : final_row :=
  let cemaden := from_option cemaden_risk_score (of_int 0) hm.2 in     (* fillna(0) *)
  let alerts := from_option cemaden_alerts 0%nat hm.2 in
  let total :=
    weighted_total cemaden (dam_risk_score (rr_dam hm.1)) (fire_risk_score hm.1) in
  {| fr_row := hm.1;
     fr_cemaden_risk_score := cemaden;
     fr_cemaden_alerts := alerts;
     comprehensive_risk_score := total;
     comprehensive_risk_category := _categorize_risk_score total;
     risk_color := risk_colors !! _categorize_risk_score total |}.

(** The row of the municipal table that the left merge pairs with a
    heritage row whose key occurs once in the table. *)
Definition municipal_component (municipal : list municipal_risk) (h : risk_row)
  : option municipal_risk :=
  match rr_key h with
  | (Some m, Some u) => municipal_lookup municipal (m, u)
  | _ => None
  end.

(** A frame built from an empty list of rows has no columns, so the merge
    on ['municipality', 'uf'] raises [KeyError]. *)
Definition _combine_all_risks (heritage_gdf : list risk_row)
    (municipal_cemaden_risk : list municipal_risk) : option (list final_row) :=
  match municipal_cemaden_risk with
  | [] => None
  | _ => Some (combined_row <$> merge_left heritage_gdf municipal_cemaden_risk)
  end.
End Assessment.


Arguments municipal_risk F : clear implicits.
Arguments heritage_site F : clear implicits.
Arguments boundary G : clear implicits.
Arguments admin_row F : clear implicits.
Arguments dam_row F : clear implicits.
Arguments risk_row F : clear implicits.
Arguments final_row F : clear implicits.

Arguments point F : clear implicits.
Arguments Geometry F G : clear implicits.

(** The ordinal rank of a category label: its entry in [risk_scores]. *)
Definition category_rank (label : string) : Z := default 0 (risk_scores !! label).

(** *** A planar kernel

    Points, axis-parallel rectangles and discs in degree coordinates, enough
    to run the joins on concrete data.  A buffered point is the open disc
    around it; shapely's buffer is a polygon inscribed in that circle, hence
    contained in the disc.  [distance] is the squared Euclidean distance,
    which orders geometries as the distance itself does and needs no square
    root; a disc arises only as a buffer, which the code never measures. *)
Module Planar.
Section Planar.
Context {F : Type} `{Num F}.

Inductive shape :=
| Dot (p : point F)
| Rectangle (lo hi : point F)
| Disc (centre : point F) (radius : F).

Definition sq (x : F) : F := mul x x.

Definition sq_dist (p q : point F) : F :=
  add (sq (sub p.1 q.1)) (sq (sub p.2 q.2)).

Definition clamp (lo hi x : F) : F :=
  if ltb x lo then lo else if ltb hi x then hi else x.

Definition shape_within (p : point F) (s : shape) : bool :=
  match s with
  | Dot q => leb p.1 q.1 && leb q.1 p.1 && leb p.2 q.2 && leb q.2 p.2
  | Rectangle lo hi => ltb lo.1 p.1 && ltb p.1 hi.1 && ltb lo.2 p.2 && ltb p.2 hi.2
  | Disc c r => ltb (sq_dist p c) (sq r)
  end.

Definition shape_distance (s : shape) (p : point F) : F :=
  match s with
  | Dot q => sq_dist p q
  | Rectangle lo hi => sq_dist p (clamp lo.1 hi.1 p.1, clamp lo.2 hi.2 p.2)
  | Disc c r => if ltb (sq_dist p c) (sq r) then of_int 0 else sq_dist p c
  end.

Definition shape_buffer (s : shape) (r : F) : shape :=
  match s with
  | Dot q => Disc q r
  | Rectangle lo hi => Rectangle (sub lo.1 r, sub lo.2 r) (add hi.1 r, add hi.2 r)
  | Disc c r' => Disc c (add r' r)
  end.

#[global] Instance geometry : Geometry F shape := {|
  within := shape_within;
  distance := shape_distance;
  buffer := shape_buffer
|}.
End Planar.
Arguments shape F : clear implicits.
End Planar.

(** ** The coordinate filters *)

Section Validator.
Context {F : Type} `{Num F}.

(** The [ultra_strict_bounds] dictionary of inpe_collector.py. *)
Record bounds := {
  north : F;
  south : F;
  east : F;
  west : F
}.

(** [west + border_buffer <= x <= east - border_buffer and
     south + border_buffer <= y <= north - border_buffer] *)
Definition within_bounds (b : bounds) (border_buffer : F) (p : F * F) : bool :=
  leb (add (west b) border_buffer) p.1 && leb p.1 (sub (east b) border_buffer)
  && leb (add (south b) border_buffer) p.2 && leb p.2 (sub (north b) border_buffer).

(** deep_coordinate_check.py: the loop that files every row under
    [valid_points] or [invalid_points]. *)
Definition check_step {A : Type} (keep : A -> bool) (acc : list A * list A) (row : A)
  : list A * list A :=
  if keep row then (acc.1 ++ [row], acc.2) else (acc.1, acc.2 ++ [row]).

Definition check_points {A : Type} (keep : A -> bool) (rows : list A) : list A * list A :=
  fold_left (check_step keep) rows ([], []).

Definition very_strict_brazil (p : F * F) : bool :=
  (leb (of_int (-74)) p.1 && leb p.1 (of_int (-34)))
  && (leb (of_int (-34)) p.2 && leb p.2 (of_int 6)).

Definition deep_coordinate_check (rows : list (F * F)) : list (F * F) * list (F * F) :=
  check_points very_strict_brazil rows.

(** final_clean_fire_points.py: only the kept rows are collected. *)
Record fire_feature := {
  ff_geometry : F * F;
  ff_estado : option string;
  ff_municipio : option string;
  ff_data_hora : option string
}.

Record clean_point := {
  cp_longitude : F;
  cp_latitude : F;
  cp_estado : string;
  cp_municipio : string;
  cp_data_hora : string
}.

Definition brazil_mainland (p : F * F) : bool :=
  (leb (of_int (-70)) p.1 && leb p.1 (of_int (-35)))
  && (leb (of_int (-30)) p.2 && leb p.2 (of_int 5)).

Definition final_clean_step (coords_data : list clean_point) (row : fire_feature)
  : list clean_point :=
  let lon := (ff_geometry row).1 in
  let lat := (ff_geometry row).2 in
  if brazil_mainland (lon, lat) then
    coords_data ++ [ {| cp_longitude := lon;
                        cp_latitude := lat;
                        cp_estado := default "Unknown"%string (ff_estado row);
                        cp_municipio := default "Unknown"%string (ff_municipio row);
                        cp_data_hora := default "Unknown"%string (ff_data_hora row) |} ]
  else coords_data.

Definition final_clean_fire_points (gdf : list fire_feature) : list clean_point :=
  fold_left final_clean_step gdf [].

(** inpe_collector.py: the high-risk and moderate-risk pixel loops. *)
Definition ultra_strict_bounds : bounds :=
  {| north := dec 45 10; south := of_int (-33); east := dec (-355) 10; west := of_int (-73) |}.

Definition border_buffer : F := dec 2 10.

Record risk_point := {
  rp_longitude : F;
  rp_latitude : F;
  rp_risk_level : string;
  rp_risk_value : F
}.

(** A pixel after [rasterio.transform.xy]: its coordinates and its value. *)
Definition pixel : Type := (F * F) * F.

Definition risk_step (level : string) (all_points : list risk_point) (px : pixel)
  : list risk_point :=
  if within_bounds ultra_strict_bounds border_buffer px.1 then
    all_points ++ [ {| rp_longitude := px.1.1;
                       rp_latitude := px.1.2;
                       rp_risk_level := level;
                       rp_risk_value := px.2 |} ]
  else all_points.

(** [range(0, len(moderate_indices[0]), 5)] *)
Definition every_fifth {A : Type} (l : list A) : list A :=
  snd <$> List.filter (fun ix => Nat.eqb (ix.1 mod 5) 0) (imap pair l).

Definition inpe_risk_points (high moderate : list pixel) : list risk_point :=
  fold_left (risk_step "moderate") (every_fifth moderate)
    (fold_left (risk_step "high") high []).
End Validator.

Arguments bounds F : clear implicits.
Arguments fire_feature F : clear implicits.
Arguments clean_point F : clear implicits.
Arguments risk_point F : clear implicits.

(** ** cemaden_collector.py *)

Module Str.
(** Python [str] values are kept as UTF-8 byte strings.  Case mapping and
    whitespace act on the ASCII range; a byte of a multi-byte character
    counts as a cased letter that is left as it is, which is what Python
    does to a lower-case accented letter inside a word. *)

Definition code (c : ascii) : nat := nat_of_ascii c.

Definition is_space (c : ascii) : bool :=
  (Nat.leb 9 (code c) && Nat.leb (code c) 13)
  || (Nat.leb 28 (code c) && Nat.leb (code c) 32).

Definition is_lower (c : ascii) : bool := Nat.leb 97 (code c) && Nat.leb (code c) 122.
Definition is_upper (c : ascii) : bool := Nat.leb 65 (code c) && Nat.leb (code c) 90.
Definition is_multibyte (c : ascii) : bool := Nat.leb 128 (code c).

Definition to_upper (c : ascii) : ascii :=
  if is_lower c then ascii_of_nat (code c - 32) else c.
Definition to_lower (c : ascii) : ascii :=
  if is_upper c then ascii_of_nat (code c + 32) else c.

(** [re.sub(r'\([^)]*\)', '', name)]: [outside] copies until an opening
    parenthesis that is closed later on; [inside] looks for the closing
    one and resumes after it. *)
Fixpoint outside (s : list ascii) : list ascii :=
  match s with
  | [] => []
  | c :: rest =>
      if Ascii.eqb c "("%char then
        match inside rest with
        | Some resumed => resumed
        | None => c :: outside rest
        end
      else c :: outside rest
  end
with inside (s : list ascii) : option (list ascii) :=
  match s with
  | [] => None
  | c :: rest => if Ascii.eqb c ")"%char then Some (outside rest) else inside rest
  end.

(** [name.split()] *)
Fixpoint split_from (word : list ascii) (s : list ascii) : list (list ascii) :=
  match s with
  | [] => match word with [] => [] | _ => [rev word] end
  | c :: rest =>
      if is_space c then
        match word with
        | [] => split_from [] rest
        | _ => rev word :: split_from [] rest
        end
      else split_from (c :: word) rest
  end.

Definition split (s : list ascii) : list (list ascii) := split_from [] s.

(** [' '.join(words)] *)
Fixpoint join (words : list (list ascii)) : list ascii :=
  match words with
  | [] => []
  | [w] => w
  | w :: rest => w ++ " "%char :: join rest
  end.

(** [str.title()] *)
Fixpoint title_from (previous_is_cased : bool) (s : list ascii) : list ascii :=
  match s with
  | [] => []
  | c :: rest =>
      if is_lower c then
        (if previous_is_cased then c else to_upper c) :: title_from true rest
      else if is_upper c then
        (if previous_is_cased then to_lower c else c) :: title_from true rest
      else if is_multibyte c then c :: title_from true rest
      else c :: title_from false rest
  end.

Definition title (s : list ascii) : list ascii := title_from false s.

(** [str.strip()] *)
Fixpoint lstrip (s : list ascii) : list ascii :=
  match s with
  | [] => []
  | c :: rest => if is_space c then lstrip rest else s
  end.

Definition strip (s : list ascii) : list ascii := rev (lstrip (rev (lstrip s))).

(** [str.upper()] *)
Definition upper (s : string) : string :=
  string_of_list_ascii (to_upper <$> list_ascii_of_string s).
End Str.

Definition clean_municipality_name (name : string) : string :=
  if String.eqb name "" then ""%string
  else
    let name := Str.outside (list_ascii_of_string name) in
    let name := Str.title (Str.join (Str.split name)) in
    string_of_list_ascii (Str.strip name).

Definition process_alerts (raw_alerts : list alert) : list alert :=
  fold_left (fun processed_alerts a =>
               processed_alerts ++
                 [ {| municipio := clean_municipality_name (municipio a);
                      uf := Str.upper (uf a);
                      tipo_alerta := tipo_alerta a;
                      nivel := nivel a;
                      abertura := abertura a;
                      timestamp := timestamp a |} ])
            raw_alerts [].

(** [grouped]: a Python dict, which keeps its keys in the order of their first
    insertion. *)
Fixpoint dict_set (k : string) (v : alert) (d : list (string * alert)) : list (string * alert) :=
  match d with
  | [] => [(k, v)]
  | (k', v') :: rest =>
      if String.eqb k k' then (k', v) :: rest else (k', v') :: dict_set k v rest
  end.

Definition dict_get (k : string) (d : list (string * alert)) : option alert :=
  snd <$> List.find (fun kv => String.eqb k kv.1) d.

Definition dedup_key (a : alert) : string :=
  (municipio a ++ "_" ++ uf a ++ "_" ++ tipo_alerta a)%string.

Definition dedup_step (grouped : list (string * alert)) (a : alert) : list (string * alert) :=
  match dict_get (dedup_key a) grouped with
  | None => dict_set (dedup_key a) a grouped
  | Some kept =>
      if Z.ltb (timestamp kept) (timestamp a) then dict_set (dedup_key a) a grouped
      else grouped
  end.

Definition remove_duplicates (alerts : list alert) : list alert :=
  match alerts with
  | [] => []
  | _ => snd <$> fold_left dedup_step alerts []
  end.

(** *** The scraper's effects: the clock and the files of [project_data/cemaden] *)

Record summary := {
  collection_date : string;
  total_alerts : nat;
  risk_types : nat * nat;            (* Risco Hidrológico, Risco Geológico *)
  risk_levels : nat * nat * nat;     (* Moderado, Alto, Muito Alto *)
  states_covered : nat;
  municipalities_covered : nat
}.

Inductive file :=
| JsonAlerts (alerts : list alert)
| CsvAlerts (alerts : list alert)
| JsonSummary (s : summary).

Record state := {
  clock : Z;
  files : gmap string file
}.

Definition M (A : Type) : Type := state -> A * state.

#[global] Instance M_ret : MRet M := fun A (x : A) st => (x, st).
#[global] Instance M_bind : MBind M :=
  fun A B (k : A -> M B) (m : M A) st => let r := m st in k r.1 r.2.

(** [datetime.now()]: time passes between two readings. *)
Definition now : M Z :=
  fun st => (clock st, {| clock := clock st + 1; files := files st |}).

(** [open(path, 'w')] followed by a dump. *)
Definition write_file (path : string) (content : file) : M unit :=
  fun st => (tt, {| clock := clock st; files := <[path := content]> (files st) |}).

(** What the scraper meets outside: the site, both scraping paths, and the
    two [strftime] renderings of an instant. *)
Record environment := {
  connection_ok : bool;
  selenium_alerts : list alert;
  requests_alerts : list alert;
  strftime_compact : Z -> string;   (* '%Y%m%d_%H%M%S' *)
  strftime_iso : Z -> string        (* '%Y-%m-%d %H:%M:%S' *)
}.

Section Scraper.
Variable env : environment.

Definition test_connection : M bool := mret (connection_ok env).
Definition scrape_with_selenium : M (list alert) := mret (selenium_alerts env).
Definition scrape_with_requests : M (list alert) := mret (requests_alerts env).

Definition sample (m u t n ab : string) : M alert :=
  ts ← now;
  mret {| municipio := m; uf := u; tipo_alerta := t; nivel := n;
          abertura := ab; timestamp := ts |}.

Definition create_sample_data : M (list alert) :=
  a1 ← sample "São Paulo" "SP" "Risco Hidrológico" "Alto" "2025-07-14 10:00:00";
  a2 ← sample "Rio de Janeiro" "RJ" "Risco Geológico" "Muito Alto" "2025-07-14 11:00:00";
  a3 ← sample "Belo Horizonte" "MG" "Risco Hidrológico" "Moderado" "2025-07-14 12:00:00";
  a4 ← sample "Salvador" "BA" "Risco Geológico" "Alto" "2025-07-14 13:00:00";
  a5 ← sample "Recife" "PE" "Risco Hidrológico" "Muito Alto" "2025-07-14 14:00:00";
  mret [a1; a2; a3; a4; a5].

Definition count_where (p : alert -> bool) (alerts : list alert) : nat :=
  length (List.filter p alerts).

Definition save_data (alerts : list alert) : M unit :=
  match alerts with
  | [] => mret tt
  | _ =>
      t ← now;
      let timestamp := strftime_compact env t in
      _ ← write_file ("real_time_cemaden_data_" ++ timestamp ++ ".json") (JsonAlerts alerts);
      _ ← write_file ("real_time_cemaden_data_" ++ timestamp ++ ".csv") (CsvAlerts alerts);
      _ ← write_file "real_time_cemaden_data.json" (JsonAlerts alerts);
      _ ← write_file "real_time_cemaden_data.csv" (CsvAlerts alerts);
      d ← now;
      write_file "real_time_cemaden_summary.json"
        (JsonSummary
           {| collection_date := strftime_iso env d;
              total_alerts := length alerts;
              risk_types :=
                (count_where (fun a => String.eqb (tipo_alerta a) "Risco Hidrológico") alerts,
                 count_where (fun a => String.eqb (tipo_alerta a) "Risco Geológico") alerts);
              risk_levels :=
                (count_where (fun a => String.eqb (nivel a) "Moderado") alerts,
                 count_where (fun a => String.eqb (nivel a) "Alto") alerts,
                 count_where (fun a => String.eqb (nivel a) "Muito Alto") alerts);
              states_covered := length (remove_dups (uf <$> alerts));
              municipalities_covered :=
                length (remove_dups
                          ((fun a => (municipio a ++ "_" ++ uf a)%string) <$> alerts)) |})
  end.

Definition run_scraper : M (list alert) :=
  ok ← test_connection;
  if negb ok then create_sample_data
  else
    alerts ← scrape_with_selenium;
    alerts ← (match alerts with [] => scrape_with_requests | _ => mret alerts end);
    alerts ← (match alerts with [] => create_sample_data | _ => mret alerts end);
    let processed_alerts := process_alerts alerts in
    let final_alerts := remove_duplicates processed_alerts in
    _ ← save_data final_alerts;
    mret final_alerts.
End Scraper.

(** ** heritage_risk_assessment.py: the fire step, the whole computation and
    the counts of the analysis *)

Section Pipeline.
Context {F : Type} `{Num F} {G : Type} `{Geometry F G}.

(** *** _calculate_fire_risk *)

(** A row of the fire frame: its area and its [risk_level] column. *)
Record fire_area := {
  fa_geometry : G;
  fa_risk_level : string
}.

Definition rr_label (r : risk_row F) : nat := idx (ar_site (dr_admin (rr_dam r))).

Definition fire_zone_label (z : dam_row F * option (nat * fire_area)) : nat :=
  idx (ar_site (dr_admin z.1)).

(** [heritage_gdf.loc[label, 'fire_risk_score'] = score] *)
Definition loc_set_fire (label : nat) (score : Z) (rows : list (risk_row F))
  : list (risk_row F) :=
  (fun r => if Nat.eqb (rr_label r) label
            then {| rr_dam := rr_dam r; fire_risk_score := score |} else r) <$> rows.

(** One turn of the loop over [heritage_with_fire.index]; a label that heads
    several rows of the join raises [ValueError], as in the dam loop. *)
Definition fire_step (zones : list (dam_row F * option (nat * fire_area)))
    (acc : option (list (risk_row F))) (z : dam_row F * option (nat * fire_area))
  : option (list (risk_row F)) :=
  heritage ← acc;
  match List.filter (fun z' => Nat.eqb (fire_zone_label z') (fire_zone_label z)) zones with
  | [one] =>
      match one.2 with
      | None => Some heritage
      | Some ir =>
          let fire_level := fa_risk_level ir.2 in
          Some (loc_set_fire (fire_zone_label z) (default 2 (risk_scores !! fire_level))
                  heritage)
      end
  | _ => None
  end.

Definition _calculate_fire_risk (heritage_gdf : list (dam_row F)) (fire_gdf : list fire_area)
  : option (list (risk_row F)) :=
  let init := (fun r => {| rr_dam := r; fire_risk_score := 0 |}) <$> heritage_gdf in
  match fire_gdf with
  | [] => Some init
  | _ =>
      let heritage_with_fire :=
        sjoin_left (fun r => geometry (ar_site (dr_admin r))) fa_geometry
          heritage_gdf fire_gdf in
      fold_left (fire_step heritage_with_fire) heritage_with_fire (Some init)
  end.

(** *** calculate_comprehensive_risk

    The five steps in order; an exception of a step ([None]) ends the
    computation. *)
Definition calculate_comprehensive_risk (heritage_gdf : list (heritage_site F))
    (disaster_df : list alert) (dam_gdf : list G) (fire_gdf : list fire_area)
    (boundaries_gdf : list (boundary G)) : option (list (final_row F)) :=
  let heritage_with_admin :=
    _spatial_join_heritage_municipalities heritage_gdf boundaries_gdf in
  let municipal_cemaden_risk := _calculate_municipal_cemaden_risk disaster_df in
  heritage_with_dam_risk ← _calculate_dam_proximity_risk heritage_with_admin dam_gdf;
  heritage_with_fire_risk ← _calculate_fire_risk heritage_with_dam_risk fire_gdf;
  _combine_all_risks heritage_with_fire_risk municipal_cemaden_risk.

(** *** create_comprehensive_analysis: the counts of
    ['risk_breakdown_by_source'] and of a state summary *)

Definition cemaden_affected (r : final_row F) : bool := ltb (of_int 0) (fr_cemaden_risk_score r).
Definition dam_affected (r : final_row F) : bool := Z.ltb 0 (dam_risk_score (rr_dam (fr_row r))).
Definition fire_affected (r : final_row F) : bool := Z.ltb 0 (fire_risk_score (fr_row r)).

Definition cemaden_affected_sites (heritage_final : list (final_row F)) : nat :=
  length (List.filter cemaden_affected heritage_final).
Definition dam_affected_sites (heritage_final : list (final_row F)) : nat :=
  length (List.filter dam_affected heritage_final).
Definition fire_affected_sites (heritage_final : list (final_row F)) : nat :=
  length (List.filter fire_affected heritage_final).

(** [(cemaden > 0) & (dam > 0) | (fire > 0)]: [&] binds tighter than [|]. *)
Definition multiple_risks_sites (heritage_final : list (final_row F)) : nat :=
  length (List.filter
            (fun r => (cemaden_affected r && dam_affected r) || fire_affected r)
            heritage_final).

Definition fr_uf (r : final_row F) : option string := ar_uf (dr_admin (rr_dam (fr_row r))).

(** [heritage_final['uf'].unique()]: the values in order of first
    appearance, a missing one (NaN) among them. *)
Definition unique_ufs (heritage_final : list (final_row F)) : list (option string) :=
  rev (remove_dups (rev (fr_uf <$> heritage_final))).

(** [heritage_final[heritage_final['uf'] == uf]]: NaN equals nothing. *)
Definition state_data (heritage_final : list (final_row F)) (uf : option string)
  : list (final_row F) :=
  match uf with
  | Some u => List.filter (fun r => bool_decide (fr_uf r = Some u)) heritage_final
  | None => []
  end.

Definition state_heritage_sites (heritage_final : list (final_row F)) (uf : option string)
  : nat := length (state_data heritage_final uf).

Definition state_high_risk_sites (heritage_final : list (final_row F)) (uf : option string)
  : nat :=
  length (List.filter
            (fun r => bool_decide (comprehensive_risk_category r ∈ ["Alto"; "Muito Alto"]%string))
            (state_data heritage_final uf)).
End Pipeline.

Arguments fire_area G : clear implicits.

(** ** The other coordinate scripts *)

Section OtherFilters.
Context {F : Type} `{Num F}.

(** fix_fire_points.py: pandas' [&], [|] and [~] on the two columns. *)
Definition brazil_mask (p : F * F) : bool :=
  leb (of_int (-74)) p.1 && leb p.1 (of_int (-34))
  && leb (of_int (-34)) p.2 && leb p.2 (of_int 6).

Definition ocean_mask (p : F * F) : bool :=
  negb (ltb (of_int (-30)) p.1 || ltb (of_int 6) p.2
        || ltb p.2 (of_int (-35)) || ltb p.1 (of_int (-75))).

Definition valid_mask (p : F * F) : bool := brazil_mask p && ocean_mask p.

Definition fix_fire_points (gdf : list (F * F)) : list (F * F) :=
  List.filter valid_mask gdf.

(** ultra_fix_fire_points.py *)
Definition ultra_strict_mask (p : F * F) : bool :=
  leb (of_int (-70)) p.1 && leb p.1 (of_int (-38))
  && leb (of_int (-30)) p.2 && leb p.2 (of_int 3).

Definition ultra_fix_fire_points (gdf : list (F * F)) : list (F * F) :=
  List.filter ultra_strict_mask gdf.

(** verify_qgis_coordinates.py: the count of the second loop. *)
Definition in_brazil (p : F * F) : bool :=
  (leb (of_int (-73)) p.1 && leb p.1 (of_int (-35)))
  && (leb (of_int (-33)) p.2 && leb p.2 (of_int 5)).

Definition outside_count (gdf : list (F * F)) : nat :=
  fold_left (fun count p => if negb (in_brazil p) then S count else count) gdf 0%nat.
End OtherFilters.

(** ** Invariants of the loops

    What one turn of the loop of [remove_duplicates] keeps true of
    [grouped]. *)
Definition grouped_ok (alerts : list alert) (grouped : list (string * alert)) : Prop :=
  NoDup grouped.*1
  /\ (forall k v, (k, v) ∈ grouped -> dedup_key v = k /\ v ∈ alerts)
  /\ (forall a, a ∈ alerts ->
        exists b, dict_get (dedup_key a) grouped = Some b /\ timestamp a <= timestamp b).

(** The loops of [_calculate_dam_proximity_risk] and [_calculate_fire_risk]
    have one shape: a left join of the rows with the areas, then one turn per
    row of the join, which reads [.loc[idx, 'index_right']] and updates the
    rows of that label.  [loop_step] is that turn with the update left open;
    [matches] are the areas around a row, [outcome] what the loop leaves in a
    row that has at most one. *)
Section LabelLoop.
Context {F : Type} `{Num F} {G : Type} `{Geometry F G}.
Context {L R Row : Type}.
Variable geom_l : L -> option (point F).
Variable geom_r : R -> G.
Variable label : L -> nat.
Variable row_label : Row -> nat.
Variable init : L -> Row.
Variable upd : L * option (nat * R) -> nat * R -> Row -> Row.

Definition loop_step (zones : list (L * option (nat * R)))
    (acc : option (list Row)) (z : L * option (nat * R)) : option (list Row) :=
  heritage ← acc;
  match List.filter (fun z' => Nat.eqb (label z'.1) (label z.1)) zones with
  | [one] =>
      match one.2 with
      | None => Some heritage
      | Some ir =>
          Some ((fun r => if Nat.eqb (row_label r) (label z.1) then upd z ir r else r)
                  <$> heritage)
      end
  | _ => None
  end.

Definition matches (right : list R) (l : L) : list (nat * R) :=
  match geom_l l with
  | Some p => List.filter (fun ir => within p (geom_r ir.2)) (imap pair right)
  | None => []
  end.

Definition zone_rows (right : list R) (l : L) : list (L * option (nat * R)) :=
  match matches right l with
  | [] => [(l, None)]
  | ms => (fun ir => (l, Some ir)) <$> ms
  end.

Definition zone_of (right : list R) (l : L) : L * option (nat * R) :=
  (l, head (matches right l)).

Definition outcome (right : list R) (l : L) : Row :=
  match head (matches right l) with
  | Some ir => upd (zone_of right l) ir (init l)
  | None => init l
  end.

Definition progress (right : list R) (done : list L) (l : L) : Row :=
  if bool_decide (label l ∈ label <$> done) then outcome right l else init l.
End LabelLoop.

(** What the two loops leave in a row, read off the frames: the areas of a
    frame that hold a site (the municipalities, the buffers of 0.045 degrees
    around the dams, the fire areas), and the row each loop ends with. *)
Section LoopOutcomes.
Context {F : Type} `{Num F} {G : Type} `{Geometry F G}.

Definition site_label (r : admin_row F) : nat := idx (ar_site r).

Definition around {R : Type} (geom_r : R -> G) (right : list R) (s : heritage_site F)
  : list R :=
  match geometry s with
  | Some p => List.filter (fun x => within p (geom_r x)) right
  | None => []
  end.

Definition municipalities_around (boundaries_gdf : list (boundary G)) (s : heritage_site F)
  : list (boundary G) := around b_geometry boundaries_gdf s.

Definition dams_around (dam_gdf : list G) (s : heritage_site F) : list G :=
  around (fun g => buffer g (dec 45 1000)) dam_gdf s.

Definition fires_around (fire_gdf : list (fire_area G)) (s : heritage_site F)
  : list (fire_area G) := around fa_geometry fire_gdf s.

(** [distances.min() * 111] *)
Definition dam_distance_km (dam_gdf : list G) (r : admin_row F) : option F :=
  site_point ← geometry (ar_site r);
  m ← series_min ((fun g => distance g site_point) <$> dam_gdf);
  Some (mul m (of_int 111)).

Definition dam_outcome (dam_gdf : list G) (r : admin_row F) : dam_row F :=
  match dams_around dam_gdf (ar_site r) with
  | [] => no_dam_row r
  | _ => {| dr_admin := r;
            dam_risk_score := 3;
            nearest_dam_distance := dam_distance_km dam_gdf r |}
  end.

Definition fire_outcome (fire_gdf : list (fire_area G)) (r : dam_row F) : risk_row F :=
  {| rr_dam := r;
     fire_risk_score :=
       match fires_around fire_gdf (ar_site (dr_admin r)) with
       | [] => 0
       | a :: _ => default 2 (risk_scores !! fa_risk_level a)
       end |}.

(** The updates of one turn of each loop. *)
Definition dam_upd (dam_gdf : list G) (z : admin_row F * option (nat * G))
    (ir : nat * G) (r : dam_row F) : dam_row F :=
  {| dr_admin := dr_admin r;
     dam_risk_score := 3;
     nearest_dam_distance := dam_distance_km dam_gdf z.1 |}.

Definition fire_upd (z : dam_row F * option (nat * fire_area G))
    (ir : nat * fire_area G) (r : risk_row F) : risk_row F :=
  {| rr_dam := rr_dam r;
     fire_risk_score := default 2 (risk_scores !! fa_risk_level ir.2) |}.

Definition fire_label (r : dam_row F) : nat := idx (ar_site (dr_admin r)).

(** The site of a row of the result. *)
Definition fr_site (r : final_row F) : heritage_site F :=
  ar_site (dr_admin (rr_dam (fr_row r))).
End LoopOutcomes.

Section PipelineRows.
Context {F : Type} `{Num F} {G : Type} `{Geometry F G}.

(** The row of the result for a row of the join: each is computed from its
    own site and the four frames. *)
Definition assessed_row (disaster_df : list alert) (dam_gdf : list G)
    (fire_gdf : list (fire_area G)) (r : admin_row F) : final_row F :=
  let h := fire_outcome fire_gdf (dam_outcome dam_gdf r) in
  combined_row (h, municipal_component (_calculate_municipal_cemaden_risk disaster_df) h).
End PipelineRows.

(** ** Scenario data *)

(** The record of the single-alert scenario. *)
Definition scenario_alert (X Y ab : string) (ts : Z) : alert :=
  {| municipio := X; uf := Y; tipo_alerta := "Risco Geológico"; nivel := "Alto";
     abertura := ab; timestamp := ts |}.

(** Three flood alerts of one municipality, in two orders. *)
Definition flood_alert (level : string) : alert :=
  {| municipio := "Petrópolis"; uf := "RJ"; tipo_alerta := "Risco Hidrológico";
     nivel := level; abertura := "2025-07-14 10:00:00"; timestamp := 0 |}.

Definition floods_a : list alert :=
  [flood_alert "Moderado"; flood_alert "Moderado"; flood_alert "Alto"].
Definition floods_b : list alert :=
  [flood_alert "Moderado"; flood_alert "Alto"; flood_alert "Moderado"].

(** An alert whose level and type are in neither table. *)
Definition odd_alert : alert :=
  {| municipio := "Petrópolis"; uf := "RJ"; tipo_alerta := "Vendaval";
     nivel := "Crítico"; abertura := "2025-07-14 10:00:00"; timestamp := 0 |}.

(** Heritage sites and municipality rectangles for the join. *)
Definition site_at {F : Type} (i : nat) (p : point F) : heritage_site F :=
  {| idx := i; site_name := "Igreja Matriz"; geometry := Some p |}.

Definition site_without_geometry {F : Type} (i : nat) : heritage_site F :=
  {| idx := i; site_name := "Sítio sem coordenadas"; geometry := None |}.

Definition rectangle_a {F : Type} `{Num F} : boundary (Planar.shape F) :=
  {| b_municipality := "Ouro Preto"; b_uf := "MG";
     b_geometry := Planar.Rectangle (of_int (-46), of_int (-21)) (of_int (-44), of_int (-19)) |}.

Definition rectangle_b {F : Type} `{Num F} : boundary (Planar.shape F) :=
  {| b_municipality := "Mariana"; b_uf := "MG";
     b_geometry := Planar.Rectangle (of_int (-45), of_int (-22)) (of_int (-43), of_int (-20)) |}.

Definition overlap_site {F : Type} `{Num F} : heritage_site F :=
  site_at 0 (dec (-445) 10, dec (-205) 10).

Definition outside_site {F : Type} `{Num F} : heritage_site F :=
  site_at 0 (of_int (-40), of_int (-20)).

(** A dam and a site 4.999999 km, 5.000001 km or 4.99 km north of it. *)
Definition dam_point {F : Type} `{Num F} : point F := (of_int (-45), of_int (-20)).

Definition site_north_of_dam {F : Type} `{Num F} (km : F) : admin_row F :=
  {| ar_site := site_at 0 (north_of dam_point km);
     ar_municipality := Some "Ouro Preto"%string;
     ar_uf := Some "MG"%string |}.

(** Two runs of the scraper: the site unreachable, and the site reachable
    with both scraping paths coming back empty. *)
Definition offline_env : environment :=
  {| connection_ok := false; selenium_alerts := []; requests_alerts := [];
     strftime_compact := fun _ => "20250714_100000"%string;
     strftime_iso := fun _ => "2025-07-14 10:00:00"%string |}.

Definition silent_env : environment :=
  {| connection_ok := true; selenium_alerts := []; requests_alerts := [];
     strftime_compact := fun _ => "20250714_100000"%string;
     strftime_iso := fun _ => "2025-07-14 10:00:00"%string |}.

Definition fresh_state : state := {| clock := 1752487200; files := ∅ |}.

(** Two scored features: one in the municipality of the flood alerts and
    near a dam, one in a municipality without alerts. *)
Definition scored_site {F : Type} (i : nat) (p : point F) (m u : string) (dam fire : Z)
  : risk_row F :=
  {| rr_dam := {| dr_admin := {| ar_site := site_at i p;
                                 ar_municipality := Some m;
                                 ar_uf := Some u |};
                  dam_risk_score := dam;
                  nearest_dam_distance := None |};
     fire_risk_score := fire |}.

Definition scored_sites {F : Type} `{Num F} : list (risk_row F) :=
  [scored_site 0 (dec (-4318) 100, dec (-2251) 100) "Petrópolis" "RJ" 3 0;
   scored_site 1 (dec (-4350) 100, dec (-2038) 100) "Ouro Preto" "MG" 0 4].

(** * Verification *)

(** ** The literals of the source, as binary64 reads them *)

Lemma binary64_literals :
  dec (F:=float) 12 10 = 1.2%float /\ dec (F:=float) 15 10 = 1.5%float
  /\ dec (F:=float) 13 10 = 1.3%float /\ dec (F:=float) 14 10 = 1.4%float
  /\ dec (F:=float) 10 10 = 1.0%float /\ dec (F:=float) 4 10 = 0.4%float
  /\ dec (F:=float) 3 10 = 0.3%float /\ dec (F:=float) 45 1000 = 0.045%float
  /\ dec (F:=float) 2 10 = 0.2%float /\ dec (F:=float) (-355) 10 = (-35.5)%float
  /\ dec (F:=float) 45 10 = 4.5%float.
Proof. vm_compute. repeat split; reflexivity. Qed.

Example clean_rio : clean_municipality_name "Rio de  Janeiro (RJ) " = "Rio De Janeiro"%string.
Proof. vm_compute. reflexivity. Qed.

Example clean_sao_paulo : clean_municipality_name "São Paulo" = "São Paulo"%string.
Proof. vm_compute. reflexivity. Qed.

Example clean_unclosed : clean_municipality_name "a (b" = "A (B"%string.
Proof. vm_compute. reflexivity. Qed.

Example clean_twice : clean_municipality_name "x (a) y (b) z(" = "X Y Z("%string.
Proof. vm_compute. reflexivity. Qed.

(** ** The municipal aggregator *)

Section AggregatorFacts.
Context {F : Type} `{Num F}.

Lemma insert_key_perm k ks : insert_key k ks ≡ₚ k :: ks.
Proof.
  induction ks as [|k' ks IH]; simpl; [done|].
  destruct (key_leb k k'); [done|].
  rewrite IH. apply Permutation_swap.
Qed.

Lemma sort_keys_perm ks : sort_keys ks ≡ₚ ks.
Proof.
  induction ks as [|k ks IH]; simpl; [done|].
  rewrite insert_key_perm. by rewrite IH.
Qed.

Lemma elem_of_group_keys (df : list alert) k :
  k ∈ group_keys df <-> k ∈ key_of <$> df.
Proof.
  unfold group_keys. rewrite sort_keys_perm. apply elem_of_remove_dups.
Qed.

Lemma NoDup_group_keys (df : list alert) : NoDup (group_keys df).
Proof.
  unfold group_keys. rewrite sort_keys_perm. apply NoDup_remove_dups.
Qed.

Lemma calculate_unfold (df : list alert) :
  _calculate_municipal_cemaden_risk (F:=F) df
  = (fun k => municipal_row k (get_group df k)) <$> group_keys df.
Proof.
  unfold _calculate_municipal_cemaden_risk, groupby.
  rewrite <- list_fmap_compose. reflexivity.
Qed.

Lemma find_row (f : key -> list alert) (k : key) (ks : list key) :
  municipal_lookup ((fun k' => municipal_row (F:=F) k' (f k')) <$> ks) k
  = if decide (k ∈ ks) then Some (municipal_row k (f k)) else None.
Proof.
  unfold municipal_lookup.
  induction ks as [|k' ks IH].
  - case_decide as Hin; [by apply elem_of_nil in Hin|done].
  - rewrite fmap_cons. cbn [List.find]. destruct k' as [m u]. cbn [municipality mr_uf municipal_row fst snd].
    destruct (decide ((m, u) = k)) as [->|Hne].
    + rewrite bool_decide_eq_true_2 by done.
      rewrite decide_True; [done|]. apply list_elem_of_here.
    + rewrite bool_decide_eq_false_2 by done.
      rewrite IH. destruct (decide (k ∈ ks)) as [Hin|Hnin].
      * rewrite decide_True; [done|]. by apply list_elem_of_further.
      * rewrite decide_False; [done|].
        intros Hin. apply elem_of_cons in Hin as [->|Hin]; [done|by apply Hnin].
Qed.

(** The aggregator's answer for one key: a row exactly when some alert
    carries the key, computed from the alerts of that key in input order. *)
Lemma municipal_lookup_calculate (df : list alert) (k : key) :
  municipal_lookup (_calculate_municipal_cemaden_risk (F:=F) df) k
  = if decide (k ∈ key_of <$> df) then Some (municipal_row k (get_group df k)) else None.
Proof.
  rewrite calculate_unfold, (find_row (get_group df)).
  destruct (decide (k ∈ group_keys df)) as [Hin|Hnin].
  - rewrite decide_True; [done|]. by apply elem_of_group_keys.
  - rewrite decide_False; [done|]. intros Hin. by apply Hnin, elem_of_group_keys.
Qed.

Lemma get_group_app (b1 b2 : list alert) k :
  get_group (b1 ++ b2) k = get_group b1 k ++ get_group b2 k.
Proof. apply filter_app. Qed.

Lemma get_group_perm (df df' : list alert) k :
  df ≡ₚ df' -> get_group df k ≡ₚ get_group df' k.
Proof. intros Hp. unfold get_group. by rewrite Hp. Qed.

Lemma get_group_nil (df : list alert) k :
  k ∉ key_of <$> df -> get_group df k = [].
Proof.
  intros Hnin. unfold get_group.
  induction df as [|a df IH]; [done|].
  rewrite filter_cons. rewrite fmap_cons in Hnin.
  apply not_elem_of_cons in Hnin as [Hne Hnin].
  rewrite decide_False by done. by apply IH.
Qed.

Lemma get_group_not_nil (df : list alert) k :
  k ∈ key_of <$> df -> get_group df k <> [].
Proof.
  intros Hin Heq. apply list_elem_of_fmap in Hin as (a & -> & Hin).
  assert (a ∈ get_group df (key_of a)) as Ha by (by apply list_elem_of_filter).
  rewrite Heq in Ha. by apply not_elem_of_nil in Ha.
Qed.
End AggregatorFacts.

Lemma calculate_singleton {F : Type} `{Num F} (a : alert) :
  _calculate_municipal_cemaden_risk (F:=F) [a] = [municipal_row (key_of a) [a]].
Proof.
  rewrite calculate_unfold. unfold group_keys, get_group.
  cbn [fmap list_fmap remove_dups].
  destruct (decide_rel elem_of (key_of a) []) as [Hin|_];
    [by apply elem_of_nil in Hin|].
  cbn [sort_keys foldr insert_key fmap list_fmap].
  rewrite filter_cons, decide_True by done. by rewrite filter_nil.
Qed.

(** C1, as the code has it: one "Alto" alert of type "Risco Geológico" for
    (X, Y) gives the single row (X, Y) with one alert and the score
    min(4 * 1.5 / 2, 10) = 3.0, in binary64 and in exact arithmetic alike:
    the table gives "Alto" the base score 4 (5 belongs to "Muito Alto"). *)
Theorem C1_single_alert_score (X Y ab : string) (ts : Z) :
  _calculate_municipal_cemaden_risk (F:=float) [scenario_alert X Y ab ts]
  = [ {| municipality := X; mr_uf := Y; cemaden_risk_score := 3%float;
         cemaden_alerts := 1 |} ]
  /\ _calculate_municipal_cemaden_risk (F:=Qc) [scenario_alert X Y ab ts]
     = [ {| municipality := X; mr_uf := Y; cemaden_risk_score := Q2Qc 3;
            cemaden_alerts := 1 |} ]
  /\ pymin (F:=float) (div (mul (of_int 4) (dec 15 10)) (of_int 2)) (of_int 10) = 3%float.
Proof.
  split; [|split].
  - rewrite calculate_singleton. unfold municipal_row. cbn [key_of scenario_alert municipio uf fst snd length].
    assert (pymin (F:=float) (div (group_risk_score [scenario_alert X Y ab ts]) (of_int 2))
              (of_int 10) = 3%float) as ->
      by (vm_compute; reflexivity).
    reflexivity.
  - rewrite calculate_singleton. unfold municipal_row. cbn [key_of scenario_alert municipio uf fst snd length].
    assert (pymin (F:=Qc) (div (group_risk_score [scenario_alert X Y ab ts]) (of_int 2))
              (of_int 10) = Q2Qc 3) as ->
      by (apply Qc_is_canon; vm_compute; reflexivity).
    reflexivity.
  - vm_compute. reflexivity.
Qed.

(** C1 as stated fails: for the record of the scenario the score is not 3.75,
    neither in binary64 nor in exact arithmetic. *)
Lemma C1_score_is_not_3_75 :
  ~ (exists r,
        municipal_lookup
          (_calculate_municipal_cemaden_risk (F:=float) [scenario_alert "X" "Y" "" 0])
          ("X"%string, "Y"%string) = Some r
        /\ cemaden_risk_score r = 3.75%float /\ cemaden_alerts r = 1%nat)
  /\ ~ (exists r,
        municipal_lookup
          (_calculate_municipal_cemaden_risk (F:=Qc) [scenario_alert "X" "Y" "" 0])
          ("X"%string, "Y"%string) = Some r
        /\ cemaden_risk_score r = Q2Qc (15 # 4) /\ cemaden_alerts r = 1%nat).
Proof.
  split; intros (r & Hr & Hs & _); rewrite calculate_singleton in Hr;
    vm_compute in Hr; injection Hr as <-.
  - apply (f_equal (fun x => PrimFloat.eqb x 3)) in Hs. vm_compute in Hs. discriminate.
  - apply (f_equal this) in Hs. vm_compute in Hs. discriminate.
Qed.

(** ** Unknown levels and types (C9) *)

Lemma base_score_default (a : alert) :
  nivel a <> "Muito Alto"%string -> nivel a <> "Alto"%string ->
  nivel a <> "Moderado"%string -> nivel a <> "Baixo"%string ->
  nivel a <> "Muito Baixo"%string ->
  base_score a = 2.
Proof.
  intros. unfold base_score, risk_scores. cbn [list_to_map foldr uncurry fst snd].
  rewrite !lookup_insert_ne, lookup_empty by done. reflexivity.
Qed.

Lemma weight_default {F : Type} `{Num F} (a : alert) :
  tipo_alerta a <> "Risco Hidrológico"%string -> tipo_alerta a <> "Risco Geológico"%string ->
  tipo_alerta a <> "Mov. Massa"%string -> tipo_alerta a <> "Risco Hidro"%string ->
  tipo_alerta a <> "Fire Risk"%string -> tipo_alerta a <> "Dam Proximity"%string ->
  weight (F:=F) a = dec 10 10.
Proof.
  intros. unfold weight, risk_weights. cbn [list_to_map foldr uncurry fst snd].
  rewrite !lookup_insert_ne, lookup_empty by done. reflexivity.
Qed.


(** ** Reordering and batching (C6) *)

Section Commutative.
Context {F : Type} `{Num F}.
Hypothesis add_comm : forall x y : F, add x y = add y x.
Hypothesis add_assoc : forall x y z : F, add x (add y z) = add (add x y) z.

Lemma accumulate_swap (s : F) (a b : alert) :
  accumulate (accumulate s a) b = accumulate (accumulate s b) a.
Proof.
  unfold accumulate. rewrite <- !add_assoc. f_equal. apply add_comm.
Qed.

Lemma fold_accumulate_perm (g g' : list alert) :
  g ≡ₚ g' -> forall s : F, fold_left accumulate g s = fold_left accumulate g' s.
Proof.
  induction 1 as [|a g g' _ IH|a b g|g g' g'' _ IH1 _ IH2]; intros s; simpl.
  - reflexivity.
  - apply IH.
  - by rewrite accumulate_swap.
  - by rewrite IH1.
Qed.

Lemma municipal_row_perm (k : key) (g g' : list alert) :
  g ≡ₚ g' -> municipal_row (F:=F) k g = municipal_row k g'.
Proof.
  intros Hp. unfold municipal_row, group_risk_score.
  rewrite (fold_accumulate_perm g g' Hp), (Permutation_length Hp). reflexivity.
Qed.

Lemma lookup_calculate_perm (df df' : list alert) (k : key) :
  df ≡ₚ df' ->
  municipal_lookup (_calculate_municipal_cemaden_risk (F:=F) df') k
  = municipal_lookup (_calculate_municipal_cemaden_risk (F:=F) df) k.
Proof.
  intros Hp. rewrite !municipal_lookup_calculate.
  rewrite (municipal_row_perm k _ _ (get_group_perm df df' k Hp)).
  destruct (decide (k ∈ key_of <$> df)) as [Hin|Hnin].
  - rewrite decide_True; [done|]. by rewrite <- Hp.
  - rewrite decide_False; [done|]. by rewrite <- Hp.
Qed.
End Commutative.

(** The alert count needs no law of arithmetic. *)
Lemma alerts_calculate_perm {F : Type} `{Num F} (df df' : list alert) (k : key) :
  df ≡ₚ df' ->
  cemaden_alerts <$> municipal_lookup (_calculate_municipal_cemaden_risk (F:=F) df') k
  = cemaden_alerts <$> municipal_lookup (_calculate_municipal_cemaden_risk (F:=F) df) k.
Proof.
  intros Hp. rewrite !municipal_lookup_calculate.
  destruct (decide (k ∈ key_of <$> df)) as [Hin|Hnin].
  - rewrite decide_True by (by rewrite <- Hp). simpl.
    by rewrite (Permutation_length (get_group_perm df df' k Hp)).
  - rewrite decide_False by (by rewrite <- Hp). done.
Qed.

(** *** Exact arithmetic *)

Section ExactFacts.
Local Open Scope Qc_scope.

Lemma this_plus (x y : Qc) : (this (x + y) == this x + this y)%Q.
Proof. unfold Qcplus, Q2Qc. cbn [this]. apply Qred_correct. Qed.

Lemma this_half (x : Qc) : (this (div x (of_int 2)) == this x * (1 # 2))%Q.
Proof.
  cbn [div of_int Exact.num]. unfold Qcdiv, Qcmult, Qcinv, Q2Qc. cbn [this].
  rewrite !Qred_correct. reflexivity.
Qed.

Local Abbreviation ceiling x := (pymin (F:=Qc) x (of_int 10)).

Lemma ceiling_spec (x : Qc) :
  ((this x <= 10)%Q /\ ceiling x = x) \/ ((10 < this x)%Q /\ ceiling x = of_int 10).
Proof.
  unfold pymin. cbn [ltb of_int Exact.num].
  destruct (Qle_bool (this x) (this (Q2Qc (inject_Z 10)))) eqn:E; cbn [negb].
  - left. split; [|reflexivity]. apply Qle_bool_iff in E. exact E.
  - right. split; [|reflexivity]. apply Qnot_le_lt. intros Hle.
    apply Qle_bool_iff in Hle.
    change (this (Q2Qc (inject_Z 10))) with 10%Q in E. rewrite Hle in E. discriminate.
Qed.

Lemma ceiling_merge (a b : Qc) :
  0 <= a -> 0 <= b ->
  ceiling (div (a + b) (of_int 2))
  = ceiling (ceiling (div a (of_int 2)) + ceiling (div b (of_int 2))).
Proof.
  intros Ha Hb. apply Qc_is_canon.
  unfold Qcle in Ha, Hb. change (this 0) with 0%Q in Ha, Hb.
  pose proof (this_half a) as Ea. pose proof (this_half b) as Eb.
  pose proof (this_half (a + b)) as Eab. rewrite this_plus in Eab.
  destruct (ceiling_spec (div a (of_int 2))) as [[La ->]|[La ->]];
  destruct (ceiling_spec (div b (of_int 2))) as [[Lb ->]|[Lb ->]];
  match goal with |- (this (pymin ?l _) == this (pymin ?r _))%Q =>
    destruct (ceiling_spec l) as [[L1 ->]|[L1 ->]];
    destruct (ceiling_spec r) as [[L2 ->]|[L2 ->]] end;
  rewrite ?this_plus in *;
  change (this (of_int 10)) with 10%Q in *; try lra.
Qed.
End ExactFacts.

Lemma base_score_range (a : alert) : 1 <= base_score a <= 5.
Proof.
  unfold base_score. destruct (risk_scores !! nivel a) as [z|] eqn:E; simpl; [|lia].
  apply elem_of_list_to_map_2 in E.
  repeat (apply elem_of_cons in E as [E|E]; [injection E as _ ->; lia|]).
  by apply elem_of_nil in E.
Qed.

Lemma exact_weight_nonneg (a : alert) : (0 <= weight (F:=Qc) a)%Qc.
Proof.
  unfold weight. destruct (risk_weights !! tipo_alerta a) as [w|] eqn:E; simpl.
  - apply elem_of_list_to_map_2 in E.
    repeat (apply elem_of_cons in E as [E|E]; [injection E as _ ->; by vm_compute|]).
    by apply elem_of_nil in E.
  - by vm_compute.
Qed.

Lemma exact_term_nonneg (a : alert) :
  (0 <= mul (of_int (base_score a)) (weight (F:=Qc) a))%Qc.
Proof.
  pose proof (exact_weight_nonneg a) as Hw. pose proof (base_score_range a) as Hb.
  unfold Qcle in *. change (this 0%Qc) with 0%Q in *.
  cbn [mul of_int Exact.num]. unfold Qcmult, Q2Qc. cbn [this].
  rewrite !Qred_correct. apply Qmult_le_0_compat; [|exact Hw].
  change 0%Q with (inject_Z 0). rewrite <- Zle_Qle. lia.
Qed.

Lemma exact_fold_shift (g : list alert) (s : Qc) :
  fold_left accumulate g s = (s + fold_left accumulate g (of_int 0))%Qc.
Proof.
  revert s. induction g as [|a g IH]; intros s; cbn [fold_left].
  - change (of_int (F:=Qc) 0) with 0%Qc. by rewrite Qcplus_0_r.
  - rewrite (IH (accumulate s a)), (IH (accumulate (of_int 0) a)).
    unfold accumulate. cbn [add Exact.num].
    change (of_int (F:=Qc) 0) with 0%Qc. by rewrite Qcplus_0_l, Qcplus_assoc.
Qed.

Lemma exact_group_app (g1 g2 : list alert) :
  group_risk_score (F:=Qc) (g1 ++ g2) = (group_risk_score g1 + group_risk_score g2)%Qc.
Proof.
  unfold group_risk_score. rewrite fold_left_app. apply exact_fold_shift.
Qed.

Lemma exact_group_nonneg (g : list alert) : (0 <= group_risk_score (F:=Qc) g)%Qc.
Proof.
  induction g as [|a g IH] using rev_ind.
  - by vm_compute.
  - rewrite exact_group_app.
    replace (group_risk_score [a]) with (0 + mul (of_int (base_score a)) (weight (F:=Qc) a))%Qc
      by reflexivity.
    rewrite Qcplus_0_l.
    rewrite <- (Qcplus_0_l 0).
    apply Qcplus_le_compat; [exact IH|apply exact_term_nonneg].
Qed.

(** The result of two concatenated batches, from the two per-batch results. *)
Lemma exact_lookup_app (b1 b2 : list alert) (k : key) :
  municipal_lookup (_calculate_municipal_cemaden_risk (F:=Qc) (b1 ++ b2)) k
  = match municipal_lookup (_calculate_municipal_cemaden_risk (F:=Qc) b1) k,
          municipal_lookup (_calculate_municipal_cemaden_risk (F:=Qc) b2) k with
    | Some r1, Some r2 =>
        Some {| municipality := k.1;
                mr_uf := k.2;
                cemaden_risk_score :=
                  pymin (add (cemaden_risk_score r1) (cemaden_risk_score r2)) (of_int 10);
                cemaden_alerts := cemaden_alerts r1 + cemaden_alerts r2 |}
    | Some r, None | None, Some r => Some r
    | None, None => None
    end.
Proof.
  rewrite !municipal_lookup_calculate, fmap_app, get_group_app.
  destruct (decide (k ∈ key_of <$> b1)) as [H1|H1];
    destruct (decide (k ∈ key_of <$> b2)) as [H2|H2].
  - rewrite decide_True by (apply elem_of_app; by left).
    unfold municipal_row. cbn [cemaden_risk_score cemaden_alerts].
    rewrite exact_group_app, length_app.
    cbn [add Exact.num].
    rewrite (ceiling_merge _ _ (exact_group_nonneg _) (exact_group_nonneg _)).
    reflexivity.
  - rewrite decide_True by (apply elem_of_app; by left).
    rewrite (get_group_nil b2 k H2), app_nil_r. reflexivity.
  - rewrite decide_True by (apply elem_of_app; by right).
    rewrite (get_group_nil b1 k H1). reflexivity.
  - rewrite decide_False; [done|].
    intros [?|?]%elem_of_app; tauto.
Qed.

(** C6, as the code has it.  With exact arithmetic in place of binary64
    rounding, the row of every key (score and alert count) is the same for
    every permutation of the input, and the row for two concatenated batches
    comes from the two per-batch rows by adding the counts and adding the
    scores under the same ceiling of 10.  In binary64 the alert count is
    unchanged by a permutation as well; the score is not (see the
    counterexample), since the sum is accumulated in input order. *)
Theorem C6_reordering_and_batching (df df' b1 b2 : list alert) (k : key) :
  df ≡ₚ df' ->
  municipal_lookup (_calculate_municipal_cemaden_risk (F:=Qc) df') k
  = municipal_lookup (_calculate_municipal_cemaden_risk (F:=Qc) df) k
  /\ cemaden_alerts
       <$> municipal_lookup (_calculate_municipal_cemaden_risk (F:=float) df') k
     = cemaden_alerts
         <$> municipal_lookup (_calculate_municipal_cemaden_risk (F:=float) df) k
  /\ municipal_lookup (_calculate_municipal_cemaden_risk (F:=Qc) (b1 ++ b2)) k
     = match municipal_lookup (_calculate_municipal_cemaden_risk (F:=Qc) b1) k,
             municipal_lookup (_calculate_municipal_cemaden_risk (F:=Qc) b2) k with
       | Some r1, Some r2 =>
           Some {| municipality := k.1;
                   mr_uf := k.2;
                   cemaden_risk_score :=
                     pymin (add (cemaden_risk_score r1) (cemaden_risk_score r2))
                           (of_int 10);
                   cemaden_alerts := cemaden_alerts r1 + cemaden_alerts r2 |}
       | Some r, None | None, Some r => Some r
       | None, None => None
       end.
Proof.
  intros Hp. split; [|split].
  - apply lookup_calculate_perm; [apply Qcplus_comm|apply Qcplus_assoc|exact Hp].
  - by apply alerts_calculate_perm.
  - apply exact_lookup_app.
Qed.

(** C6 as stated fails on the code: the same three alerts of Petrópolis/RJ
    give the score 6.0 in one order and 5.999999999999999 in another. *)
Lemma C6_binary64_order_changes_score :
  floods_a ≡ₚ floods_b
  /\ cemaden_risk_score
       <$> municipal_lookup (_calculate_municipal_cemaden_risk (F:=float) floods_a)
             ("Petrópolis"%string, "RJ"%string) = Some 6%float
  /\ cemaden_risk_score
       <$> municipal_lookup (_calculate_municipal_cemaden_risk (F:=float) floods_b)
             ("Petrópolis"%string, "RJ"%string) = Some 5.999999999999999%float
  /\ municipal_lookup (_calculate_municipal_cemaden_risk (F:=float) floods_b)
       ("Petrópolis"%string, "RJ"%string)
     <> municipal_lookup (_calculate_municipal_cemaden_risk (F:=float) floods_a)
          ("Petrópolis"%string, "RJ"%string).
Proof.
  split; [|split; [|split]].
  - unfold floods_a, floods_b. apply perm_skip, perm_swap.
  - vm_compute. reflexivity.
  - vm_compute. reflexivity.
  - intros Heq.
    apply (f_equal (fun o => match o with
                             | Some r => PrimFloat.ltb (cemaden_risk_score r) 6
                             | None => false
                             end)) in Heq.
    vm_compute in Heq. discriminate.
Qed.

(** ** Bucketing (C5) *)

Lemma exact_leb_true (n : Z) (t : Qc) :
  leb (of_int n) t = true <-> (inject_Z n <= this t)%Q.
Proof.
  cbn [leb of_int Exact.num Q2Qc this]. rewrite Qle_bool_iff, Qred_correct. reflexivity.
Qed.

Lemma exact_leb_false (n : Z) (t : Qc) :
  leb (of_int n) t = false <-> (this t < inject_Z n)%Q.
Proof.
  rewrite <- not_true_iff_false, exact_leb_true. split.
  - apply Qnot_le_lt.
  - apply Qlt_not_le.
Qed.

(** The five buckets, as intervals of the total. *)
Lemma categorize_spec (t : Qc) :
  ((8 <= this t)%Q /\ _categorize_risk_score t = "Muito Alto"%string)
  \/ ((6 <= this t < 8)%Q /\ _categorize_risk_score t = "Alto"%string)
  \/ ((4 <= this t < 6)%Q /\ _categorize_risk_score t = "Moderado"%string)
  \/ ((2 <= this t < 4)%Q /\ _categorize_risk_score t = "Baixo"%string)
  \/ ((this t < 2)%Q /\ _categorize_risk_score t = "Muito Baixo"%string).
Proof.
  unfold _categorize_risk_score.
  destruct (leb (of_int 8) t) eqn:E8;
    [apply exact_leb_true in E8; auto|apply exact_leb_false in E8].
  destruct (leb (of_int 6) t) eqn:E6;
    [apply exact_leb_true in E6; auto|apply exact_leb_false in E6].
  destruct (leb (of_int 4) t) eqn:E4;
    [apply exact_leb_true in E4; auto 6|apply exact_leb_false in E4].
  destruct (leb (of_int 2) t) eqn:E2;
    [apply exact_leb_true in E2; auto 8|apply exact_leb_false in E2; auto 8].
Qed.

(** C5: the bucketing is monotone in the total, the five buckets are the
    intervals [8, oo), [6, 8), [4, 6), [2, 4) and (-oo, 2), which leave no gap
    and do not overlap, and a total on a threshold falls in the higher
    bucket. *)
Theorem C5_bucketing_monotone (t1 t2 : Qc) :
  (t1 <= t2)%Qc ->
  category_rank (_categorize_risk_score t1) <= category_rank (_categorize_risk_score t2)
  /\ (_categorize_risk_score t1 = "Muito Alto"%string <-> (8 <= this t1)%Q)
  /\ (_categorize_risk_score t1 = "Alto"%string <-> (6 <= this t1 < 8)%Q)
  /\ (_categorize_risk_score t1 = "Moderado"%string <-> (4 <= this t1 < 6)%Q)
  /\ (_categorize_risk_score t1 = "Baixo"%string <-> (2 <= this t1 < 4)%Q)
  /\ (_categorize_risk_score t1 = "Muito Baixo"%string <-> (this t1 < 2)%Q)
  /\ _categorize_risk_score (F:=Qc) (of_int 8) = "Muito Alto"%string
  /\ _categorize_risk_score (F:=Qc) (of_int 6) = "Alto"%string
  /\ _categorize_risk_score (F:=Qc) (of_int 4) = "Moderado"%string
  /\ _categorize_risk_score (F:=Qc) (of_int 2) = "Baixo"%string
  /\ _categorize_risk_score (F:=float) (of_int 8) = "Muito Alto"%string
  /\ _categorize_risk_score (F:=float) (of_int 6) = "Alto"%string
  /\ _categorize_risk_score (F:=float) (of_int 4) = "Moderado"%string
  /\ _categorize_risk_score (F:=float) (of_int 2) = "Baixo"%string.
Proof.
  intros Hle. unfold Qcle in Hle.
  split.
  - destruct (categorize_spec t1) as [[H1 ->]|[[H1 ->]|[[H1 ->]|[[H1 ->]|[H1 ->]]]]];
    destruct (categorize_spec t2) as [[H2 ->]|[[H2 ->]|[[H2 ->]|[[H2 ->]|[H2 ->]]]]];
    try (by vm_compute); exfalso; lra.
  - repeat match goal with |- _ /\ _ => split end;
      try (vm_compute; reflexivity);
      (split; intros Hc;
       destruct (categorize_spec t1) as [[H1 E]|[[H1 E]|[[H1 E]|[[H1 E]|[H1 E]]]]];
       rewrite E in *; try discriminate; try reflexivity; try lra; exfalso; lra).
Qed.

(** ** The coordinate filters (C8) *)

Section ValidatorFacts.
Context {F : Type} `{Num F}.

Lemma check_points_from {A : Type} (keep : A -> bool) (rows valid invalid : list A) :
  fold_left (check_step keep) rows (valid, invalid)
  = (valid ++ List.filter keep rows, invalid ++ List.filter (fun r => negb (keep r)) rows).
Proof.
  revert valid invalid. induction rows as [|r rows IH]; intros valid invalid.
  - cbn. by rewrite !app_nil_r.
  - cbn [fold_left List.filter]. unfold check_step at 2. cbn [fst snd].
    destruct (keep r); cbn [negb]; rewrite IH; by rewrite <- ?app_assoc.
Qed.

Lemma check_points_filter {A : Type} (keep : A -> bool) (rows : list A) :
  check_points keep rows
  = (List.filter keep rows, List.filter (fun r => negb (keep r)) rows).
Proof. unfold check_points. by rewrite check_points_from. Qed.

Lemma filter_split_perm {A : Type} (keep : A -> bool) (rows : list A) :
  List.filter keep rows ++ List.filter (fun r => negb (keep r)) rows ≡ₚ rows.
Proof.
  induction rows as [|r rows IH]; [done|]. cbn [List.filter].
  destruct (keep r); cbn [negb app].
  - by rewrite IH.
  - rewrite <- Permutation_middle. by rewrite IH.
Qed.

Lemma filter_sublist {A : Type} (keep : A -> bool) (rows : list A) :
  sublist (List.filter keep rows) rows.
Proof.
  induction rows as [|r rows IH]; [constructor|]. cbn [List.filter].
  destruct (keep r); by constructor.
Qed.

Lemma final_clean_from (gdf : list (fire_feature F)) (coords_data : list (clean_point F)) :
  (fun c => (cp_longitude c, cp_latitude c)) <$> fold_left final_clean_step gdf coords_data
  = ((fun c => (cp_longitude c, cp_latitude c)) <$> coords_data)
      ++ List.filter brazil_mainland (ff_geometry <$> gdf).
Proof.
  revert coords_data. induction gdf as [|row gdf IH]; intros coords_data.
  - cbn. by rewrite app_nil_r.
  - cbn [fold_left fmap list_fmap List.filter]. rewrite IH. unfold final_clean_step.
    destruct (ff_geometry row) as [lon lat]; cbn [fst snd].
    destruct (brazil_mainland (lon, lat)); [|done].
    rewrite fmap_app. cbn. by rewrite <- app_assoc.
Qed.

Lemma risk_points_from (level : string) (pixels : list (pixel (F:=F)))
    (all_points : list (risk_point F)) :
  (fun r => (rp_longitude r, rp_latitude r)) <$> fold_left (risk_step level) pixels all_points
  = ((fun r => (rp_longitude r, rp_latitude r)) <$> all_points)
      ++ List.filter (within_bounds ultra_strict_bounds border_buffer) (fst <$> pixels).
Proof.
  revert all_points. induction pixels as [|px pixels IH]; intros all_points.
  - cbn. by rewrite app_nil_r.
  - cbn [fold_left fmap list_fmap List.filter]. rewrite IH. unfold risk_step.
    destruct px as [[x y] v]; cbn [fst snd].
    destruct (within_bounds ultra_strict_bounds border_buffer (x, y)); [|done].
    rewrite fmap_app. cbn. by rewrite <- app_assoc.
Qed.

End ValidatorFacts.

(** ** The spatial join (C3, C7) *)

Section JoinFacts.
Context {F : Type} `{Num F} {G : Type} `{Geometry F G}.

(** The boundaries, with their positions, whose polygon contains [p]. *)
Local Abbreviation containing boundaries p :=
  (List.filter (fun ir : nat * boundary G => within p (b_geometry ir.2)) (imap pair boundaries)).

Lemma spatial_join_bind (heritage : list (heritage_site F)) (boundaries : list (boundary G)) :
  _spatial_join_heritage_municipalities heritage boundaries
  = heritage ≫= (fun s => _spatial_join_heritage_municipalities [s] boundaries).
Proof.
  unfold _spatial_join_heritage_municipalities, sjoin_left.
  induction heritage as [|s heritage IH]; [done|].
  cbn [mbind list_bind]. rewrite !fmap_app, IH. rewrite app_nil_r. reflexivity.
Qed.

(** The rows of one site. *)
Lemma spatial_join_site (s : heritage_site F) (boundaries : list (boundary G)) :
  _spatial_join_heritage_municipalities [s] boundaries
  = match geometry s with
    | None => [unmatched_row s]
    | Some p =>
        match containing boundaries p with
        | [] => [match_nearest boundaries (unmatched_row s)]
        | matches => (fun ir : nat * boundary G => matched_row s ir.2) <$> matches
        end
    end.
Proof.
  unfold _spatial_join_heritage_municipalities, sjoin_left.
  cbn [mbind list_bind]. rewrite app_nil_r.
  destruct (geometry s) as [p|] eqn:Eg.
  - destruct (containing boundaries p) as [|ir matches] eqn:Em.
    + reflexivity.
    + rewrite <- !list_fmap_compose. apply list_fmap_ext. intros i ir' _. reflexivity.
  - cbn. unfold match_nearest. cbn. rewrite Eg. reflexivity.
Qed.

Lemma spatial_join_site_sites (s : heritage_site F) (boundaries : list (boundary G)) :
  exists n, ar_site <$> _spatial_join_heritage_municipalities [s] boundaries
            = replicate (S n) s.
Proof.
  rewrite spatial_join_site. destruct (geometry s) as [p|] eqn:Eg.
  - destruct (containing boundaries p) as [|ir matches] eqn:Em.
    + exists 0%nat. cbn. f_equal. unfold match_nearest. cbn. rewrite Eg.
      by destruct (nearest_boundary boundaries p).
    + exists (length matches). rewrite <- list_fmap_compose.
      change (S (length matches)) with (length (ir :: matches)).
      generalize (ir :: matches). intros l. induction l; cbn; [done|]. by f_equal.
  - by exists 0%nat.
Qed.

Lemma spatial_join_sites (heritage : list (heritage_site F)) (boundaries : list (boundary G)) :
  sublist heritage (ar_site <$> _spatial_join_heritage_municipalities heritage boundaries).
Proof.
  rewrite spatial_join_bind.
  induction heritage as [|s heritage IH]; [constructor|].
  cbn [mbind list_bind]. rewrite fmap_app.
  destruct (spatial_join_site_sites s boundaries) as [n ->].
  cbn [replicate app]. apply sublist_skip.
  by apply sublist_inserts_l.
Qed.

Lemma spatial_join_unique (heritage : list (heritage_site F)) (boundaries : list (boundary G)) :
  (forall s p, s ∈ heritage -> geometry s = Some p ->
               (length (containing boundaries p) <= 1)%nat) ->
  ar_site <$> _spatial_join_heritage_municipalities heritage boundaries = heritage.
Proof.
  intros Hone. rewrite spatial_join_bind.
  induction heritage as [|s heritage IH]; [done|].
  cbn [mbind list_bind]. rewrite fmap_app, IH.
  2:{ intros s' p Hs'. apply Hone. by apply list_elem_of_further. }
  rewrite spatial_join_site.
  destruct (geometry s) as [p|] eqn:Eg; [|done].
  specialize (Hone s p (list_elem_of_here _ _) Eg).
  destruct (containing boundaries p) as [|ir [|ir' matches]].
  - cbn. f_equal. unfold match_nearest. cbn. rewrite Eg.
    by destruct (nearest_boundary boundaries p).
  - done.
  - cbn in Hone. lia.
Qed.

End JoinFacts.

Lemma filter_none {A : Type} (f : A -> bool) (l : list A) :
  (forall x, x ∈ l -> f x = false) -> List.filter f l = [].
Proof.
  induction l as [|x l IH]; intros Hall; [done|]. cbn [List.filter].
  rewrite (Hall x) by apply list_elem_of_here.
  apply IH. intros y Hy. by apply Hall, list_elem_of_further.
Qed.

Section NearestFacts.
Context {F : Type} `{Num F} {G : Type} `{Geometry F G}.

(** What the comparisons of finite numbers satisfy. *)
Hypothesis ltb_leb : forall x y : F, ltb x y = negb (leb y x).
Hypothesis leb_trans : forall x y z : F, leb x y = true -> leb y z = true -> leb x z = true.
Hypothesis leb_total : forall x y : F, leb x y = true \/ leb y x = true.

Lemma leb_refl (x : F) : leb x x = true.
Proof. by destruct (leb_total x x). Qed.

Lemma idxmin_from_min (ds : list F) (best_i i : nat) (best : F) :
  exists v,
    ((idxmin_from best_i best i ds = best_i /\ v = best)
     \/ ((i <= idxmin_from best_i best i ds)%nat
         /\ ds !! (idxmin_from best_i best i ds - i)%nat = Some v))
    /\ leb v best = true /\ Forall (fun d => leb v d = true) ds.
Proof.
  revert best_i i best. induction ds as [|d ds IH]; intros best_i i best.
  - exists best. cbn. split; [by left|]. split; [apply leb_refl|constructor].
  - cbn [idxmin_from]. rewrite ltb_leb.
    destruct (leb best d) eqn:E; cbn [negb].
    + destruct (IH best_i (S i) best) as (v & Hpos & Hb & Hall).
      exists v. split; [|split; [done|]].
      * destruct Hpos as [[-> ->]|[Hle Hl]]; [by left|right].
        split; [lia|].
        replace (idxmin_from best_i best (S i) ds - i)%nat
          with (S (idxmin_from best_i best (S i) ds - S i)) by lia.
        exact Hl.
      * constructor; [by eapply leb_trans|done].
    + assert (leb d best = true) as Hd by (destruct (leb_total d best); congruence).
      destruct (IH i (S i) d) as (v & Hpos & Hb & Hall).
      exists v. split; [|split].
      * right. destruct Hpos as [[-> ->]|[Hle Hl]].
        -- split; [lia|]. by rewrite Nat.sub_diag.
        -- split; [lia|].
           replace (idxmin_from i d (S i) ds - i)%nat
             with (S (idxmin_from i d (S i) ds - S i)) by lia.
           exact Hl.
      * by eapply leb_trans.
      * by constructor.
Qed.

Lemma idxmin_min (ds : list F) :
  ds <> [] ->
  exists i v, idxmin ds = Some i /\ ds !! i = Some v /\ Forall (fun d => leb v d = true) ds.
Proof.
  destruct ds as [|d ds]; [done|]. intros _. cbn [idxmin].
  destruct (idxmin_from_min ds 0 1 d) as (v & Hpos & Hb & Hall).
  exists (idxmin_from 0 d 1 ds), v. split; [done|]. split.
  - destruct Hpos as [[-> ->]|[Hle Hl]]; [done|].
    destruct (idxmin_from 0 d 1 ds) as [|n]; [lia|].
    cbn. by replace (S n - 1)%nat with n in Hl by lia.
  - by constructor.
Qed.

Lemma nearest_boundary_min (boundaries : list (boundary G)) (p : point F) :
  boundaries <> [] ->
  exists b, nearest_boundary boundaries p = Some b /\ b ∈ boundaries
            /\ forall b', b' ∈ boundaries ->
                          leb (distance (b_geometry b) p) (distance (b_geometry b') p) = true.
Proof.
  intros Hne. unfold nearest_boundary.
  destruct (idxmin_min ((fun b => distance (b_geometry b) p) <$> boundaries))
    as (i & v & -> & Hv & Hall).
  { by destruct boundaries. }
  cbn [mbind option_bind].
  rewrite list_lookup_fmap in Hv.
  destruct (boundaries !! i) as [b|] eqn:Eb; [|done].
  injection Hv as <-. exists b. split; [done|]. split.
  - by eapply list_elem_of_lookup_2.
  - intros b' Hb'. rewrite Forall_forall in Hall. apply Hall.
    apply list_elem_of_fmap. eauto.
Qed.

End NearestFacts.

(** ** Dam proximity (C2) *)

Section DamFacts.
Context {F : Type} `{Num F} {G : Type} `{Geometry F G}.

Lemma bind_singletons {A B : Type} (f : A -> list B) (g : A -> B) (l : list A) :
  (forall x, f x = [g x]) -> l ≫= f = g <$> l.
Proof.
  intros Hf. induction l as [|x l IH]; [done|].
  cbn [mbind list_bind fmap list_fmap]. rewrite Hf. cbn [app]. f_equal. exact IH.
Qed.

Lemma sjoin_single_zone (heritage : list (admin_row F)) (zone : G) :
  sjoin_left (fun r => geometry (ar_site r)) id heritage [zone] = zone_row zone <$> heritage.
Proof.
  unfold sjoin_left. apply bind_singletons. intros r. unfold zone_row, in_zone.
  destruct (geometry (ar_site r)) as [p|]; [|done].
  cbn. by destruct (within p zone).
Qed.

Lemma zones_of_label (heritage : list (admin_row F)) (zone : G) (r : admin_row F) :
  NoDup ((fun r => idx (ar_site r)) <$> heritage) -> r ∈ heritage ->
  List.filter (fun z' => Nat.eqb (zone_label z') (zone_label (zone_row zone r)))
    (zone_row zone <$> heritage) = [zone_row zone r].
Proof.
  induction heritage as [|r' heritage IH]; intros Hnd Hin; [by apply elem_of_nil in Hin|].
  rewrite fmap_cons in Hnd. apply NoDup_cons in Hnd as [Hfresh Hnd].
  cbn [fmap list_fmap List.filter]. unfold zone_label at 1 2. cbn [zone_row fst].
  apply elem_of_cons in Hin as [->|Hin].
  - rewrite Nat.eqb_refl. f_equal. apply filter_none.
    intros z (r'' & -> & Hr'')%list_elem_of_fmap. unfold zone_label. cbn [zone_row fst].
    apply Nat.eqb_neq. intros Heq. apply Hfresh. apply list_elem_of_fmap. eauto.
  - destruct (Nat.eqb (idx (ar_site r')) (idx (ar_site r))) eqn:E.
    + apply Nat.eqb_eq in E. exfalso. apply Hfresh. rewrite E.
      apply list_elem_of_fmap. eauto.
    + by apply IH.
Qed.

Lemma label_injective (heritage : list (admin_row F)) (r r' : admin_row F) :
  NoDup ((fun r => idx (ar_site r)) <$> heritage) -> r ∈ heritage -> r' ∈ heritage ->
  idx (ar_site r') = idx (ar_site r) -> r' = r.
Proof.
  induction heritage as [|h heritage IH]; intros Hnd Hr Hr' Heq;
    [by apply elem_of_nil in Hr|].
  rewrite fmap_cons in Hnd. apply NoDup_cons in Hnd as [Hfresh Hnd].
  apply elem_of_cons in Hr as [->|Hr]; apply elem_of_cons in Hr' as [->|Hr'].
  - done.
  - exfalso. apply Hfresh. rewrite <- Heq. apply list_elem_of_fmap. eauto.
  - exfalso. apply Hfresh. rewrite Heq. apply list_elem_of_fmap. eauto.
  - by apply IH.
Qed.

Lemma dr_label_progress (dam : G) (done : list (admin_row F)) (r : admin_row F) :
  dr_label (dam_progress dam done r) = idx (ar_site r)
  /\ dr_admin (dam_progress dam done r) = r.
Proof.
  unfold dam_progress, dam_result.
  destruct (bool_decide _); [destruct (in_zone _ r)|]; done.
Qed.

Lemma dam_fold (dam : G) (heritage : list (admin_row F)) :
  NoDup ((fun r => idx (ar_site r)) <$> heritage) ->
  forall todo done, heritage = done ++ todo ->
  fold_left (dam_step [dam] (zone_row (buffer dam (dec 45 1000)) <$> heritage))
    (zone_row (buffer dam (dec 45 1000)) <$> todo)
    (Some (dam_progress dam done <$> heritage))
  = Some (dam_result dam <$> heritage).
Proof.
  intros Hnd. induction todo as [|r todo IH]; intros done Hsplit.
  - rewrite app_nil_r in Hsplit. subst done. cbn [fmap list_fmap fold_left]. f_equal.
    apply list_fmap_ext. intros i r Hr. unfold dam_progress.
    rewrite bool_decide_eq_true_2; [done|].
    apply list_elem_of_fmap. exists r. split; [done|]. by eapply list_elem_of_lookup_2.
  - cbn [fmap list_fmap fold_left].
    assert (r ∈ heritage) as Hr.
    { rewrite Hsplit. apply elem_of_app. right. apply list_elem_of_here. }
    assert (idx (ar_site r) ∉ (fun r => idx (ar_site r)) <$> done) as Hfresh.
    { rewrite Hsplit, fmap_app, fmap_cons in Hnd.
      apply NoDup_app in Hnd as (_ & Hdisj & _). intros Hin. apply (Hdisj _ Hin).
      apply list_elem_of_here. }
    assert (forall r', r' ∈ heritage ->
              dam_progress dam (done ++ [r]) r'
              = if Nat.eqb (idx (ar_site r')) (idx (ar_site r))
                then dam_result dam r' else dam_progress dam done r') as Hnext.
    { intros r' Hr'. unfold dam_progress. rewrite fmap_app. cbn [fmap list_fmap].
      destruct (Nat.eqb (idx (ar_site r')) (idx (ar_site r))) eqn:E.
      - apply Nat.eqb_eq in E. rewrite bool_decide_eq_true_2; [done|].
        apply elem_of_app. right. rewrite E. apply list_elem_of_here.
      - apply Nat.eqb_neq in E.
        destruct (bool_decide (idx (ar_site r') ∈ (fun r => idx (ar_site r)) <$> done)) eqn:D.
        + apply bool_decide_eq_true in D. rewrite bool_decide_eq_true_2; [done|].
          apply elem_of_app. by left.
        + apply bool_decide_eq_false in D. rewrite bool_decide_eq_false_2; [done|].
          intros Hx. apply elem_of_app in Hx as [Hx|Hx]; [done|].
          apply list_elem_of_singleton in Hx. done. }
    replace (dam_step [dam] (zone_row (buffer dam (dec 45 1000)) <$> heritage)
               (Some (dam_progress dam done <$> heritage))
               (zone_row (buffer dam (dec 45 1000)) r))
      with (Some (dam_progress dam (done ++ [r]) <$> heritage)).
    { apply IH. by rewrite <- app_assoc. }
    unfold dam_step. cbn [mbind option_bind].
    rewrite (zones_of_label heritage _ r Hnd Hr).
    unfold zone_row at 1. cbn [snd].
    destruct (in_zone (buffer dam (dec 45 1000)) r) eqn:Ez.
    + f_equal. unfold loc_set. rewrite <- list_fmap_compose.
      apply list_fmap_ext. intros i r' Hr'. apply list_elem_of_lookup_2 in Hr'.
      rewrite (Hnext r' Hr'). cbn [compose].
      destruct (dr_label_progress dam done r') as [-> Hadm].
      unfold zone_label. cbn [zone_row fst].
      destruct (Nat.eqb (idx (ar_site r')) (idx (ar_site r))) eqn:E; [|done].
      apply Nat.eqb_eq in E. pose proof (label_injective heritage r r' Hnd Hr Hr' E) as ->.
      rewrite Hadm. unfold dam_result. rewrite Ez. unfold near_dam_row.
      first [reflexivity | f_equal; by destruct (geometry (ar_site r))].
    + f_equal. apply list_fmap_ext. intros i r' Hr'. apply list_elem_of_lookup_2 in Hr'.
      rewrite (Hnext r' Hr').
      destruct (Nat.eqb (idx (ar_site r')) (idx (ar_site r))) eqn:E; [|done].
      apply Nat.eqb_eq in E. pose proof (label_injective heritage r r' Hnd Hr Hr' E) as ->.
      unfold dam_progress. rewrite bool_decide_eq_false_2 by done.
      unfold dam_result. by rewrite Ez.
Qed.

Lemma dam_proximity_single_dam (dam : G) (heritage : list (admin_row F)) :
  NoDup ((fun r => idx (ar_site r)) <$> heritage) ->
  _calculate_dam_proximity_risk heritage [dam] = Some (dam_result dam <$> heritage).
Proof.
  intros Hnd. unfold _calculate_dam_proximity_risk.
  cbn [fmap list_fmap]. rewrite sjoin_single_zone.
  rewrite <- (dam_fold dam heritage Hnd heritage [] eq_refl).
  do 2 f_equal.
Qed.
End DamFacts.

Lemma this_mult (x y : Qc) : (this (x * y) == this x * this y)%Q.
Proof. unfold Qcmult, Q2Qc. cbn [this]. apply Qred_correct. Qed.

(** The 0.045-degree disc around a dot, in kilometres due north of it. *)
Lemma exact_north_within (x y km : Qc) :
  within (F:=Qc) (north_of (x, y) km) (buffer (Planar.Dot (x, y)) (dec 45 1000)) = true
  <-> (this km * this km < (4995 # 1000) * (4995 # 1000))%Q.
Proof.
  cbn [within buffer Planar.geometry Planar.shape_within Planar.shape_buffer].
  unfold Planar.sq_dist, north_of, Planar.sq. cbn [fst snd].
  cbn [ltb add sub mul div of_int Exact.num].
  assert ((x - x) * (x - x) + (y + km / Q2Qc (inject_Z 111) - y) * (y + km / Q2Qc (inject_Z 111) - y)
          = km * km * Q2Qc (1 # 12321))%Qc as ->.
  { assert (km / Q2Qc (inject_Z 111) = km * Q2Qc (1 # 111))%Qc as ->.
    { reflexivity. }
    assert (Q2Qc (1 # 12321) = Q2Qc (1 # 111) * Q2Qc (1 # 111))%Qc as ->
      by (apply Qc_is_canon; reflexivity).
    ring. }
  rewrite negb_true_iff, <- not_true_iff_false, Qle_bool_iff.
  rewrite !this_mult.
  change (this (dec 45 1000)) with (9 # 200)%Q.
  change (this (Q2Qc (1 # 12321))) with (1 # 12321)%Q.
  split; intros Hk.
  - apply Qnot_le_lt in Hk. lra.
  - apply Qlt_not_le. lra.
Qed.

(** C2, as the code has it.  The buffer is 0.045 degrees wide in
    longitude/latitude coordinates; no projection is applied.  For a single
    dam, every feature of a frame with distinct index labels gets the dam
    score 3 when its point lies within that buffer and 0 otherwise.  By the
    conversion of the source (111 km to the degree) a point due north of a
    point dam is inside exactly below 4.995 km: at 4.99 km it scores, at
    4.999999 km and at 5.000001 km it does not. *)
Theorem C2_dam_buffer_in_degrees {F : Type} `{Num F} {G : Type} `{Geometry F G}
    (heritage : list (admin_row F)) (dam : G) :
  NoDup ((fun r => idx (ar_site r)) <$> heritage) ->
  _calculate_dam_proximity_risk heritage [dam] = Some (dam_result dam <$> heritage)
  /\ (forall r, dr_admin (dam_result dam r) = r
                /\ dam_risk_score (dam_result dam r)
                   = if in_zone (buffer dam (dec 45 1000)) r then 3 else 0)
  /\ (forall x y km : Qc,
        within (F:=Qc) (north_of (x, y) km) (buffer (Planar.Dot (x, y)) (dec 45 1000)) = true
        <-> (this km * this km < (4995 # 1000) * (4995 # 1000))%Q)
  /\ (forall x y : Qc,
        within (F:=Qc) (north_of (x, y) (Q2Qc 4.99))
          (buffer (Planar.Dot (x, y)) (dec 45 1000)) = true
        /\ within (F:=Qc) (north_of (x, y) (Q2Qc 4.999999))
             (buffer (Planar.Dot (x, y)) (dec 45 1000)) = false
        /\ within (F:=Qc) (north_of (x, y) (Q2Qc 5.000001))
             (buffer (Planar.Dot (x, y)) (dec 45 1000)) = false).
Proof.
  intros Hnd. split; [by apply dam_proximity_single_dam|]. split; [|split].
  - intros r. unfold dam_result. by destruct (in_zone _ r).
  - apply exact_north_within.
  - intros x y. split; [|split].
    + apply exact_north_within. by vm_compute.
    + apply not_true_iff_false. rewrite exact_north_within. by vm_compute.
    + apply not_true_iff_false. rewrite exact_north_within. by vm_compute.
Qed.

(** C2 as stated fails on the code: a point 4.999999 km due north of the
    dam (111 km to the degree, as the source converts) gets the dam score 0,
    in exact arithmetic and in binary64. *)
Lemma C2_point_at_4_999999_km_scores_zero :
  (fun rows : list (dam_row Qc) => dam_risk_score <$> rows)
    <$> _calculate_dam_proximity_risk (F:=Qc)
          [site_north_of_dam (Q2Qc 4.999999)] [Planar.Dot dam_point] = Some [0]
  /\ (fun rows : list (dam_row float) => dam_risk_score <$> rows)
       <$> _calculate_dam_proximity_risk (F:=float)
             [site_north_of_dam 4.999999%float] [Planar.Dot dam_point] = Some [0].
Proof. split; vm_compute; reflexivity. Qed.

(** ** The composite score (C4) *)

Section CombineFacts.
Context {F : Type} `{Num F} {G : Type} `{Geometry F G}.

Lemma filter_rows (f : key -> list alert) (k : key) (ks : list key) :
  NoDup ks ->
  List.filter (fun r => bool_decide ((municipality r, mr_uf r) = k))
    ((fun k' => municipal_row (F:=F) k' (f k')) <$> ks)
  = if decide (k ∈ ks) then [municipal_row k (f k)] else [].
Proof.
  induction ks as [|k' ks IH]; intros Hnd.
  - case_decide as Hin; [by apply elem_of_nil in Hin|done].
  - apply NoDup_cons in Hnd as [Hfresh Hnd].
    rewrite fmap_cons. cbn [List.filter]. destruct k' as [m u].
    cbn [municipality mr_uf municipal_row fst snd].
    destruct (decide ((m, u) = k)) as [Heq|Hne].
    + subst k. rewrite bool_decide_eq_true_2 by done.
      rewrite decide_True by apply list_elem_of_here.
      rewrite (IH Hnd), decide_False by done. reflexivity.
    + rewrite bool_decide_eq_false_2 by done. rewrite (IH Hnd).
      destruct (decide (k ∈ ks)) as [Hin|Hnin].
      * rewrite decide_True; [done|]. by apply list_elem_of_further.
      * rewrite decide_False; [done|].
        intros Hin. apply elem_of_cons in Hin as [->|Hin]; [done|by apply Hnin].
Qed.

Lemma merge_left_calculate (heritage : list (risk_row F)) (df : list alert) :
  merge_left heritage (_calculate_municipal_cemaden_risk df)
  = (fun h => (h, municipal_component (_calculate_municipal_cemaden_risk df) h)) <$> heritage.
Proof.
  unfold merge_left. apply bind_singletons. intros h. unfold municipal_component.
  destruct (rr_key h) as [[m|] [u|]] eqn:Ek.
  - rewrite municipal_lookup_calculate.
    rewrite (List.filter_ext _ (fun r => bool_decide ((municipality r, mr_uf r) = (m, u)))).
    2:{ intros r. apply bool_decide_ext. split; congruence. }
    rewrite calculate_unfold, (filter_rows (get_group df)) by apply NoDup_group_keys.
    destruct (decide ((m, u) ∈ group_keys df)) as [Hin|Hnin].
    + rewrite !decide_True by (first [done | by apply elem_of_group_keys]). reflexivity.
    + rewrite !decide_False
        by (first [done | intros Hin; by apply Hnin, elem_of_group_keys]).
      reflexivity.
  - rewrite filter_none; [done|]. intros r _. by apply bool_decide_eq_false_2.
  - rewrite filter_none; [done|]. intros r _. by apply bool_decide_eq_false_2.
  - rewrite filter_none; [done|]. intros r _. by apply bool_decide_eq_false_2.
Qed.

Lemma calculate_not_nil (df : list alert) :
  df <> [] -> _calculate_municipal_cemaden_risk (F:=F) df <> [].
Proof.
  destruct df as [|a df]; [done|]. intros _ Hnil.
  assert (key_of a ∈ group_keys (a :: df)) as Hin.
  { apply elem_of_group_keys. rewrite fmap_cons. apply list_elem_of_here. }
  rewrite calculate_unfold in Hnil. apply fmap_nil_inv in Hnil.
  rewrite Hnil in Hin. by apply elem_of_nil in Hin.
Qed.

Lemma combine_calculate (heritage : list (risk_row F)) (df : list alert) :
  df <> [] ->
  _combine_all_risks heritage (_calculate_municipal_cemaden_risk df)
  = Some ((fun h => combined_row
                      (h, municipal_component (_calculate_municipal_cemaden_risk df) h))
            <$> heritage).
Proof.
  intros Hne. unfold _combine_all_risks.
  pose proof (calculate_not_nil df Hne) as Hrows.
  destruct (_calculate_municipal_cemaden_risk df) as [|row rows] eqn:E; [done|].
  rewrite <- E, merge_left_calculate, <- list_fmap_compose. reflexivity.
Qed.
End CombineFacts.

(** C4: with alert data present, every feature gets one output row whose
    composite score is 0.4 x municipal score + 0.3 x dam score + 0.3 x fire
    score; the municipal score is the one of the feature's (municipality, uf)
    row and is 0 when the table has no such row.  The three weights add up to
    1.0, in binary64 and exactly. *)
Theorem C4_composite_weighted_sum {F : Type} `{Num F}
    (heritage : list (risk_row F)) (disaster_df : list alert) :
  disaster_df <> [] ->
  let municipal := _calculate_municipal_cemaden_risk disaster_df in
  _combine_all_risks heritage municipal
  = Some ((fun h => combined_row (h, municipal_component municipal h)) <$> heritage)
  /\ (forall h,
        let o := combined_row (h, municipal_component municipal h) in
        fr_row o = h
        /\ comprehensive_risk_score o
           = add (add (mul (fr_cemaden_risk_score o) (dec 4 10))
                      (mul (of_int (dam_risk_score (rr_dam h))) (dec 3 10)))
                 (mul (of_int (fire_risk_score h)) (dec 3 10))
        /\ (municipal_component municipal h = None ->
            fr_cemaden_risk_score o = of_int 0 /\ fr_cemaden_alerts o = 0%nat)
        /\ (forall r, municipal_component municipal h = Some r ->
              fr_cemaden_risk_score o = cemaden_risk_score r
              /\ fr_cemaden_alerts o = cemaden_alerts r))
  /\ add (F:=float) (add (dec 4 10) (dec 3 10)) (dec 3 10) = 1%float
  /\ add (F:=Qc) (add (dec 4 10) (dec 3 10)) (dec 3 10) = Q2Qc 1.
Proof.
  intros Hne. cbn zeta. split; [by apply combine_calculate|]. split; [|split].
  - intros h. split; [done|]. split; [done|]. split.
    + intros ->. done.
    + intros r ->. done.
  - vm_compute. reflexivity.
  - apply Qc_is_canon. vm_compute. reflexivity.
Qed.

(** ** The scraper's fallbacks (C10) *)

Lemma sample_data_names (env : environment) (st : state) :
  municipio <$> (create_sample_data st).1
  = ["São Paulo"; "Rio de Janeiro"; "Belo Horizonte"; "Salvador"; "Recife"]%string
  /\ municipio <$> remove_duplicates (process_alerts (create_sample_data st).1)
     = ["São Paulo"; "Rio De Janeiro"; "Belo Horizonte"; "Salvador"; "Recife"]%string
  /\ files (create_sample_data st).2 = files st.
Proof. split; [|split]; vm_compute; reflexivity. Qed.

(** C10 on the code.  With the site unreachable, [run_scraper] returns the
    five sample records as they are created (the name "Rio de Janeiro" not yet
    normalised to "Rio De Janeiro") and writes no file.  With the site
    reachable and both scraping paths empty, it returns the five records
    cleaned and deduplicated and writes them to real_time_cemaden_data.json. *)
Theorem C10_sample_data_fallbacks (env : environment) (st : state) :
  (connection_ok env = false ->
     (run_scraper env st).1 = (create_sample_data st).1
     /\ files (run_scraper env st).2 = files st
     /\ municipio <$> (run_scraper env st).1
        = ["São Paulo"; "Rio de Janeiro"; "Belo Horizonte"; "Salvador"; "Recife"]%string
     /\ (run_scraper env st).1
        <> remove_duplicates (process_alerts (create_sample_data st).1))
  /\ (connection_ok env = true -> selenium_alerts env = [] -> requests_alerts env = [] ->
        (run_scraper env st).1
        = remove_duplicates (process_alerts (create_sample_data st).1)
        /\ length (run_scraper env st).1 = 5%nat
        /\ municipio <$> (run_scraper env st).1
           = ["São Paulo"; "Rio De Janeiro"; "Belo Horizonte"; "Salvador"; "Recife"]%string
        /\ files (run_scraper env st).2 !! "real_time_cemaden_data.json"%string
           = Some (JsonAlerts (run_scraper env st).1)).
Proof.
  destruct (sample_data_names env st) as (Hraw & Hclean & Hfiles).
  split.
  - intros Hoff.
    assert (run_scraper env st = create_sample_data st) as ->.
    { unfold run_scraper, test_connection. cbn [mbind M_bind mret M_ret fst snd].
      rewrite Hoff. reflexivity. }
    split; [done|]. split; [done|]. split; [done|].
    intros Heq. rewrite <- Heq, Hraw in Hclean. discriminate.
  - intros Hon Hsel Hreq.
    assert (run_scraper env st
            = (remove_duplicates (process_alerts (create_sample_data st).1),
               (save_data env (remove_duplicates (process_alerts (create_sample_data st).1))
                  (create_sample_data st).2).2)) as ->.
    { unfold run_scraper, test_connection, scrape_with_selenium, scrape_with_requests.
      cbn [mbind M_bind mret M_ret fst snd]. rewrite Hon, Hsel. cbn [negb].
      cbn [mbind M_bind mret M_ret fst snd]. rewrite Hreq. reflexivity. }
    cbn [fst snd]. split; [done|]. split; [by vm_compute|]. split; [done|].
    destruct (remove_duplicates (process_alerts (create_sample_data st).1))
      as [|a rest] eqn:E; [by vm_compute in E|].
    unfold save_data, write_file, now, mbind, M_bind. cbn [fst snd files].
    rewrite lookup_insert_ne by done. rewrite lookup_insert_ne by done.
    apply lookup_insert_eq.
Qed.

(** ** The comparisons of exact arithmetic *)

Lemma exact_ltb_leb (x y : Qc) : ltb x y = negb (leb y x).
Proof. reflexivity. Qed.

Lemma exact_leb_trans (x y z : Qc) : leb x y = true -> leb y z = true -> leb x z = true.
Proof.
  cbn [leb Exact.num]. rewrite !Qle_bool_iff. apply Qle_trans.
Qed.

Lemma exact_leb_total (x y : Qc) : leb x y = true \/ leb y x = true.
Proof.
  cbn [leb Exact.num]. rewrite !Qle_bool_iff.
  destruct (Qlt_le_dec (this y) (this x)) as [Hlt|Hle]; [right|left].
  - by apply Qlt_le_weak.
  - done.
Qed.

(** ** The statements at concrete inputs *)

(** C2 at a site 4.99 km north of the dam: it scores 3. *)
Lemma C2_single_dam_witness :
  NoDup ((fun r : admin_row Qc => idx (ar_site r)) <$> [site_north_of_dam (Q2Qc 4.99)])
  /\ (fun rows : list (dam_row Qc) => dam_risk_score <$> rows)
       <$> _calculate_dam_proximity_risk (F:=Qc)
             [site_north_of_dam (Q2Qc 4.99)] [Planar.Dot dam_point] = Some [3].
Proof.
  assert (NoDup ((fun r : admin_row Qc => idx (ar_site r))
                   <$> [site_north_of_dam (Q2Qc 4.99)])) as Hnd
    by (apply NoDup_singleton).
  split; [exact Hnd|].
  destruct (C2_dam_buffer_in_degrees [site_north_of_dam (Q2Qc 4.99)]
              (Planar.Dot dam_point) Hnd) as (-> & _).
  vm_compute. reflexivity.
Defined.


(** C4 at the two scored sites and the three flood alerts. *)
Lemma C4_flood_witness :
  floods_a <> []
  /\ _combine_all_risks (F:=float) scored_sites (_calculate_municipal_cemaden_risk floods_a)
     = Some ((fun h => combined_row
                         (h, municipal_component
                               (_calculate_municipal_cemaden_risk floods_a) h))
               <$> scored_sites).
Proof.
  assert (floods_a <> []) as Hne by discriminate.
  split; [exact Hne|].
  apply (C4_composite_weighted_sum (F:=float) scored_sites floods_a Hne).
Defined.

(** C5 at the totals 2.4 and 6: "Baixo" ranks below "Alto". *)
Lemma C5_bucket_witness :
  (Q2Qc 2.4 <= Q2Qc 6)%Qc
  /\ category_rank (_categorize_risk_score (Q2Qc 2.4))
     <= category_rank (_categorize_risk_score (Q2Qc 6)).
Proof.
  assert (Q2Qc 2.4 <= Q2Qc 6)%Qc as Hle by (by vm_compute).
  split; [exact Hle|].
  exact (proj1 (C5_bucketing_monotone (Q2Qc 2.4) (Q2Qc 6) Hle)).
Defined.

(** C6 at the two orders of the flood alerts, in exact arithmetic. *)
Lemma C6_floods_witness :
  floods_a ≡ₚ floods_b
  /\ municipal_lookup (_calculate_municipal_cemaden_risk (F:=Qc) floods_b)
       ("Petrópolis"%string, "RJ"%string)
     = municipal_lookup (_calculate_municipal_cemaden_risk (F:=Qc) floods_a)
         ("Petrópolis"%string, "RJ"%string).
Proof.
  assert (floods_a ≡ₚ floods_b) as Hp by (apply perm_skip, perm_swap).
  split; [exact Hp|].
  apply (C6_reordering_and_batching floods_a floods_b [] []
           ("Petrópolis"%string, "RJ"%string) Hp).
Defined.



(** C10 at the two runs: nothing is written offline; the sample is written
    when both scraping paths are empty. *)
Lemma C10_two_runs_witness :
  connection_ok offline_env = false
  /\ files (run_scraper offline_env fresh_state).2 = ∅
  /\ connection_ok silent_env = true /\ selenium_alerts silent_env = []
  /\ requests_alerts silent_env = []
  /\ files (run_scraper silent_env fresh_state).2 !! "real_time_cemaden_data.json"%string
     = Some (JsonAlerts (run_scraper silent_env fresh_state).1).
Proof.
  split; [reflexivity|]. split.
  - apply (C10_sample_data_fallbacks offline_env fresh_state). reflexivity.
  - split; [reflexivity|]. split; [reflexivity|]. split; [reflexivity|].
    apply (C10_sample_data_fallbacks silent_env fresh_state); reflexivity.
Defined.



(** * Further properties of the code *)

(** ** cemaden_collector.py: remove_duplicates *)

Lemma dict_get_set_eq (k : string) (v : alert) (d : list (string * alert)) :
  dict_get k (dict_set k v d) = Some v.
Proof.
  unfold dict_get. induction d as [|[k' v'] d IH]; cbn [dict_set List.find].
  - cbn. by rewrite String.eqb_refl.
  - destruct (String.eqb k k') eqn:E; cbn [List.find fst]; rewrite E; [done|exact IH].
Qed.

Lemma dict_get_set_ne (k k' : string) (v : alert) (d : list (string * alert)) :
  k <> k' -> dict_get k' (dict_set k v d) = dict_get k' d.
Proof.
  intros Hne. unfold dict_get. induction d as [|[k0 v0] d IH]; cbn [dict_set List.find].
  - cbn. apply not_eq_sym, String.eqb_neq in Hne. by rewrite Hne.
  - destruct (String.eqb k k0) eqn:E; cbn [List.find fst].
    + apply String.eqb_eq in E. subst k0.
      apply not_eq_sym, String.eqb_neq in Hne. by rewrite Hne.
    + destruct (String.eqb k' k0); [done|exact IH].
Qed.

Lemma dict_get_Some (k : string) (v : alert) (d : list (string * alert)) :
  dict_get k d = Some v -> (k, v) ∈ d.
Proof.
  unfold dict_get. induction d as [|[k' v'] d IH]; cbn [List.find fst]; [done|].
  destruct (String.eqb k k') eqn:E.
  - apply String.eqb_eq in E. subst k'. intros [= ->]. apply list_elem_of_here.
  - intros Hd. apply list_elem_of_further. by apply IH.
Qed.

Lemma dict_get_None (k : string) (d : list (string * alert)) :
  dict_get k d = None <-> k ∉ d.*1.
Proof.
  unfold dict_get. induction d as [|[k' v'] d IH]; cbn [List.find fst fmap list_fmap].
  - split; [intros _; apply not_elem_of_nil|done].
  - destruct (String.eqb k k') eqn:E.
    + apply String.eqb_eq in E. subst k'. split; [done|].
      intros Hn. exfalso. apply Hn, list_elem_of_here.
    + apply String.eqb_neq in E. rewrite IH, not_elem_of_cons. tauto.
Qed.

Lemma dict_set_fresh (k : string) (v : alert) (d : list (string * alert)) :
  k ∉ d.*1 -> dict_set k v d = d ++ [(k, v)].
Proof.
  induction d as [|[k' v'] d IH]; cbn [dict_set fmap list_fmap fst app]; [done|].
  intros [Hne Hn]%not_elem_of_cons. apply String.eqb_neq in Hne. rewrite Hne.
  by rewrite IH.
Qed.

Lemma dict_set_keys (k : string) (v : alert) (d : list (string * alert)) :
  k ∈ d.*1 -> (dict_set k v d).*1 = d.*1.
Proof.
  induction d as [|[k' v'] d IH]; cbn [dict_set fmap list_fmap fst].
  - intros Hin. by apply elem_of_nil in Hin.
  - destruct (String.eqb k k') eqn:E; [done|].
    apply String.eqb_neq in E. intros [?|Hin]%elem_of_cons; [done|].
    cbn [fmap list_fmap fst]. by rewrite IH.
Qed.

Lemma dict_set_elem (k : string) (v : alert) (d : list (string * alert)) (kv : string * alert) :
  kv ∈ dict_set k v d -> kv = (k, v) \/ kv ∈ d.
Proof.
  induction d as [|[k' v'] d IH]; cbn [dict_set].
  - intros Hin%list_elem_of_singleton. by left.
  - destruct (String.eqb k k') eqn:E.
    + apply String.eqb_eq in E. subst k'.
      intros [->|Hin]%elem_of_cons; [by left|right; by apply list_elem_of_further].
    + intros [->|Hin]%elem_of_cons; [right; apply list_elem_of_here|].
      destruct (IH Hin) as [->|Hd]; [by left|right; by apply list_elem_of_further].
Qed.


Lemma dict_get_app_l (k : string) (v : alert) (d d' : list (string * alert)) :
  dict_get k d = Some v -> dict_get k (d ++ d') = Some v.
Proof.
  unfold dict_get. induction d as [|[k0 v0] d IH]; cbn [List.find app fst]; [done|].
  by destruct (String.eqb k k0).
Qed.

Lemma dedup_step_ok (seen : list alert) (grouped : list (string * alert)) (a : alert) :
  grouped_ok seen grouped -> grouped_ok (seen ++ [a]) (dedup_step grouped a).
Proof.
  intros (Hnd & Hent & Hrep). unfold dedup_step.
  assert (forall k v, (k, v) ∈ grouped -> dedup_key v = k /\ v ∈ seen ++ [a]) as Hent'.
  { intros k v Hkv. destruct (Hent k v Hkv). split; [done|]. apply elem_of_app. by left. }
  assert (a ∈ seen ++ [a]) as Ha by (apply elem_of_app; right; apply list_elem_of_here).
  destruct (dict_get (dedup_key a) grouped) as [kept|] eqn:Eg.
  - assert (dedup_key a ∈ grouped.*1) as Hk.
    { apply dict_get_Some in Eg. apply list_elem_of_fmap. by exists (dedup_key a, kept). }
    destruct (Z.ltb (timestamp kept) (timestamp a)) eqn:Et.
    + apply Z.ltb_lt in Et. split; [by rewrite dict_set_keys|]. split.
      * intros k v [[= -> ->]|Hkv]%dict_set_elem; [done|by apply Hent'].
      * intros a' [Ha'|Ha']%elem_of_app.
        -- destruct (Hrep a' Ha') as (b & Hb & Hts).
           destruct (decide (dedup_key a = dedup_key a')) as [Heq|Hne].
           ++ rewrite <- Heq, dict_get_set_eq. exists a. split; [done|].
              rewrite <- Heq, Eg in Hb. injection Hb as <-. lia.
           ++ rewrite dict_get_set_ne by done. eauto.
        -- apply list_elem_of_singleton in Ha'. subst a'.
           rewrite dict_get_set_eq. exists a. split; [done|lia].
    + apply Z.ltb_ge in Et. split; [done|]. split; [done|].
      intros a' [Ha'|Ha']%elem_of_app; [by apply Hrep|].
      apply list_elem_of_singleton in Ha'. subst a'. eauto.
  - apply dict_get_None in Eg. rewrite dict_set_fresh by done. split; [|split].
    + rewrite fmap_app. apply NoDup_app. split; [done|]. split; [|apply NoDup_singleton].
      intros k Hk Hk'. apply list_elem_of_singleton in Hk'. by subst k.
    + intros k v [Hkv|Hkv]%elem_of_app; [by apply Hent'|].
      apply list_elem_of_singleton in Hkv. by injection Hkv as -> ->.
    + intros a' [Ha'|Ha']%elem_of_app.
      * destruct (Hrep a' Ha') as (b & Hb & Hts). exists b. split; [|done].
        by apply dict_get_app_l.
      * apply list_elem_of_singleton in Ha'. subst a'. exists a. split; [|lia].
        rewrite <- dict_set_fresh by done. apply dict_get_set_eq.
Qed.

Lemma grouped_fold_ok (alerts : list alert) :
  grouped_ok alerts (fold_left dedup_step alerts []).
Proof.
  induction alerts as [|a alerts IH] using rev_ind.
  - split; [constructor|]. split; [intros k v Hkv; by apply elem_of_nil in Hkv|].
    intros a Ha. by apply elem_of_nil in Ha.
  - rewrite fold_left_app. cbn [fold_left]. by apply dedup_step_ok.
Qed.

Lemma dict_set_length (k : string) (v : alert) (d : list (string * alert)) :
  (length (dict_set k v d) <= S (length d))%nat.
Proof.
  induction d as [|[k' v'] d IH]; cbn [dict_set length]; [lia|].
  destruct (String.eqb k k'); cbn [length]; lia.
Qed.

Lemma grouped_fold_length (alerts : list alert) (d : list (string * alert)) :
  (length (fold_left dedup_step alerts d) <= length d + length alerts)%nat.
Proof.
  revert d. induction alerts as [|a alerts IH]; intros d; cbn [fold_left length]; [lia|].
  etransitivity; [apply IH|]. unfold dedup_step.
  destruct (dict_get (dedup_key a) d) as [kept|]; [destruct (Z.ltb _ _)|];
    try pose proof (dict_set_length (dedup_key a) a d); lia.
Qed.

Lemma remove_duplicates_fold (alerts : list alert) :
  remove_duplicates alerts = (fold_left dedup_step alerts []).*2.
Proof. by destruct alerts. Qed.

Lemma remove_duplicates_represents (alerts : list alert) (a : alert) :
  a ∈ alerts ->
  exists b, b ∈ remove_duplicates alerts
            /\ dedup_key b = dedup_key a /\ timestamp a <= timestamp b.
Proof.
  rewrite remove_duplicates_fold.
  destruct (grouped_fold_ok alerts) as (Hnd & Hent & Hrep).
  intros Ha. destruct (Hrep a Ha) as (b & Hb & Hts). exists b.
  apply dict_get_Some in Hb. split; [|split; [|done]].
  - apply list_elem_of_fmap. by exists (dedup_key a, b).
  - by destruct (Hent _ _ Hb).
Qed.

(** X1: [remove_duplicates] returns alerts of its input, one for every key
    municipio_uf_tipo of the input and no two with the same key; the alert
    kept for a key is at least as recent as every input alert of that key. *)
Theorem X1_remove_duplicates_keeps_latest (alerts : list alert) :
  NoDup (dedup_key <$> remove_duplicates alerts)
  /\ (forall b, b ∈ remove_duplicates alerts -> b ∈ alerts)
  /\ (forall a, a ∈ alerts ->
        exists b, b ∈ remove_duplicates alerts
                  /\ dedup_key b = dedup_key a /\ timestamp a <= timestamp b)
  /\ (length (remove_duplicates alerts) <= length alerts)%nat.
Proof.
  rewrite remove_duplicates_fold.
  destruct (grouped_fold_ok alerts) as (Hnd & Hent & Hrep).
  assert (forall kv, kv ∈ fold_left dedup_step alerts [] -> dedup_key kv.2 = kv.1) as Hkey.
  { intros [k v] Hkv. by destruct (Hent k v Hkv). }
  split; [|split; [|split]].
  - rewrite <- list_fmap_compose.
    rewrite (list_fmap_ext (dedup_key ∘ snd) fst (fold_left dedup_step alerts [])); [done|].
    intros i kv Hi. apply Hkey. by eapply list_elem_of_lookup_2.
  - intros b ([k v] & -> & Hkv)%list_elem_of_fmap. by destruct (Hent k v Hkv).
  - intros a Ha. rewrite <- remove_duplicates_fold. by apply remove_duplicates_represents.
  - rewrite length_fmap. pose proof (grouped_fold_length alerts []). cbn in *. lia.
Qed.

Lemma grouped_fold_distinct (alerts : list alert) (d : list (string * alert)) :
  NoDup (d.*1 ++ (dedup_key <$> alerts)) ->
  fold_left dedup_step alerts d = d ++ ((fun a => (dedup_key a, a)) <$> alerts).
Proof.
  revert d. induction alerts as [|a alerts IH]; intros d Hnd.
  - cbn. by rewrite app_nil_r.
  - cbn [fold_left fmap list_fmap]. rewrite fmap_cons in Hnd.
    assert (dedup_key a ∉ d.*1) as Hfresh.
    { apply NoDup_app in Hnd as (_ & Hdisj & _). intros Hin.
      apply (Hdisj _ Hin), list_elem_of_here. }
    unfold dedup_step. rewrite (proj2 (dict_get_None _ _) Hfresh), dict_set_fresh by done.
    rewrite IH.
    + by rewrite <- app_assoc.
    + rewrite fmap_app, <- app_assoc. exact Hnd.
Qed.

Lemma remove_duplicates_distinct (alerts : list alert) :
  NoDup (dedup_key <$> alerts) -> remove_duplicates alerts = alerts.
Proof.
  intros Hnd. rewrite remove_duplicates_fold, grouped_fold_distinct by done.
  cbn [app]. rewrite <- list_fmap_compose. apply list_fmap_id.
Qed.

(** X2: a list whose keys are distinct passes through [remove_duplicates]
    unchanged, in its order; so removing duplicates twice is the same as
    once. *)
Theorem X2_remove_duplicates_stable (alerts : list alert) :
  (NoDup (dedup_key <$> alerts) -> remove_duplicates alerts = alerts)
  /\ remove_duplicates (remove_duplicates alerts) = remove_duplicates alerts.
Proof.
  split; [apply remove_duplicates_distinct|].
  apply remove_duplicates_distinct.
  rewrite remove_duplicates_fold.
  destruct (grouped_fold_ok alerts) as (Hnd & Hent & _).
  rewrite <- list_fmap_compose.
  rewrite (list_fmap_ext (dedup_key ∘ snd) fst (fold_left dedup_step alerts [])); [done|].
  intros i [k v] Hi. apply list_elem_of_lookup_2 in Hi. by destruct (Hent k v Hi).
Qed.

(** ** cemaden_collector.py: process_alerts, save_data, run_scraper *)

Lemma process_alerts_from (raw_alerts processed : list alert) :
  fold_left (fun processed_alerts a =>
               processed_alerts ++
                 [ {| municipio := clean_municipality_name (municipio a);
                      uf := Str.upper (uf a);
                      tipo_alerta := tipo_alerta a;
                      nivel := nivel a;
                      abertura := abertura a;
                      timestamp := timestamp a |} ])
            raw_alerts processed
  = processed ++ ((fun a => {| municipio := clean_municipality_name (municipio a);
                               uf := Str.upper (uf a);
                               tipo_alerta := tipo_alerta a;
                               nivel := nivel a;
                               abertura := abertura a;
                               timestamp := timestamp a |}) <$> raw_alerts).
Proof.
  revert processed. induction raw_alerts as [|a raw IH]; intros processed.
  - cbn. by rewrite app_nil_r.
  - cbn [fold_left fmap list_fmap]. rewrite IH, <- app_assoc. reflexivity.
Qed.

Lemma process_alerts_length (raw_alerts : list alert) :
  length (process_alerts raw_alerts) = length raw_alerts.
Proof.
  unfold process_alerts. rewrite process_alerts_from. cbn [app]. apply length_fmap.
Qed.

Lemma remove_duplicates_not_nil (alerts : list alert) :
  (1 <= length alerts)%nat -> (1 <= length (remove_duplicates alerts))%nat.
Proof.
  destruct alerts as [|a alerts]; [cbn; lia|]. intros _.
  destruct (remove_duplicates_represents (a :: alerts) a (list_elem_of_here _ _))
    as (b & Hb & _).
  destruct (remove_duplicates (a :: alerts)); [by apply elem_of_nil in Hb|cbn; lia].
Qed.

(** X3: [save_data] writes nothing for an empty list.  For a non-empty one
    it leaves the list in real_time_cemaden_data.json and .csv, a summary
    with the number of alerts in real_time_cemaden_summary.json, reads the
    clock twice, and touches no file other than these three and the two
    copies with the time in their name. *)
Theorem X3_save_data_files (env : environment) (alerts : list alert) (st : state) :
  save_data env [] st = (tt, st)
  /\ (alerts <> [] ->
      let st' := (save_data env alerts st).2 in
      files st' !! "real_time_cemaden_data.json"%string = Some (JsonAlerts alerts)
      /\ files st' !! "real_time_cemaden_data.csv"%string = Some (CsvAlerts alerts)
      /\ (exists s, files st' !! "real_time_cemaden_summary.json"%string = Some (JsonSummary s)
                    /\ total_alerts s = length alerts
                    /\ collection_date s = strftime_iso env (clock st + 1))
      /\ clock st' = clock st + 2
      /\ (forall path : string,
            path ∉ ["real_time_cemaden_data.json"; "real_time_cemaden_data.csv";
                     "real_time_cemaden_summary.json";
                     ("real_time_cemaden_data_" ++ strftime_compact env (clock st) ++ ".json");
                     ("real_time_cemaden_data_" ++ strftime_compact env (clock st) ++ ".csv")]%string ->
            files st' !! path = files st !! path)).
Proof.
  split; [reflexivity|]. intros Hne.
  destruct alerts as [|a rest]; [done|]. cbn zeta.
  unfold save_data, write_file, now, mbind, M_bind. cbn [fst snd files clock].
  split; [|split; [|split; [|split]]].
  - rewrite lookup_insert_ne by done. rewrite lookup_insert_ne by done.
    apply lookup_insert_eq.
  - rewrite lookup_insert_ne by done. apply lookup_insert_eq.
  - eexists. split; [apply lookup_insert_eq|]. split; reflexivity.
  - lia.
  - intros path Hpath. rewrite !not_elem_of_cons in Hpath.
    destruct Hpath as (H1 & H2 & H3 & H4 & H5 & _).
    rewrite !lookup_insert_ne by done. reflexivity.
Qed.

Lemma run_scraper_connected (env : environment) (st : state) :
  connection_ok env = true ->
  exists alerts st0,
    (1 <= length alerts)%nat
    /\ (selenium_alerts env <> [] -> alerts = selenium_alerts env)
    /\ (selenium_alerts env = [] -> requests_alerts env <> [] -> alerts = requests_alerts env)
    /\ run_scraper env st
       = (remove_duplicates (process_alerts alerts),
          (save_data env (remove_duplicates (process_alerts alerts)) st0).2).
Proof.
  intros Hon. unfold run_scraper, test_connection, scrape_with_selenium, scrape_with_requests.
  unfold mbind, M_bind, mret, M_ret. cbn [fst snd]. rewrite Hon. cbn [negb].
  destruct (selenium_alerts env) as [|a sel] eqn:Es.
  - destruct (requests_alerts env) as [|a req] eqn:Er.
    + exists (create_sample_data st).1, (create_sample_data st).2.
      split; [vm_compute; lia|]. split; [done|]. split; [done|]. reflexivity.
    + exists (a :: req), st. split; [cbn; lia|]. split; [done|]. split; [done|]. reflexivity.
  - exists (a :: sel), st. split; [cbn; lia|]. split; [done|]. split; [done|]. reflexivity.
Qed.

(** X4: [run_scraper] never returns an empty list.  When the site answers,
    the alerts of the Selenium path are used if there are any and the requests
    path is not consulted; the result has no two alerts with the same key, and
    real_time_cemaden_data.json holds exactly the list that is returned. *)
Theorem X4_run_scraper_result (env : environment) (st : state) :
  (1 <= length (run_scraper env st).1)%nat
  /\ (connection_ok env = true ->
      NoDup (dedup_key <$> (run_scraper env st).1)
      /\ files (run_scraper env st).2 !! "real_time_cemaden_data.json"%string
         = Some (JsonAlerts (run_scraper env st).1)
      /\ (selenium_alerts env <> [] ->
          (run_scraper env st).1
          = remove_duplicates (process_alerts (selenium_alerts env)))
      /\ (selenium_alerts env = [] -> requests_alerts env <> [] ->
          (run_scraper env st).1
          = remove_duplicates (process_alerts (requests_alerts env)))).
Proof.
  assert (connection_ok env = true ->
          (1 <= length (run_scraper env st).1)%nat
          /\ NoDup (dedup_key <$> (run_scraper env st).1)
          /\ files (run_scraper env st).2 !! "real_time_cemaden_data.json"%string
             = Some (JsonAlerts (run_scraper env st).1)
          /\ (selenium_alerts env <> [] ->
              (run_scraper env st).1
              = remove_duplicates (process_alerts (selenium_alerts env)))
          /\ (selenium_alerts env = [] -> requests_alerts env <> [] ->
              (run_scraper env st).1
              = remove_duplicates (process_alerts (requests_alerts env)))) as Hconn.
  { intros Hon.
    destruct (run_scraper_connected env st Hon) as (alerts & st0 & Hlen & Hsel & Hreq & ->).
    cbn [fst snd].
    assert (1 <= length (remove_duplicates (process_alerts alerts)))%nat as Hout.
    { apply remove_duplicates_not_nil. by rewrite process_alerts_length. }
    split; [exact Hout|]. split; [|split; [|split]].
    - rewrite remove_duplicates_fold.
      destruct (grouped_fold_ok (process_alerts alerts)) as (Hnd & Hent & _).
      rewrite <- list_fmap_compose.
      rewrite (list_fmap_ext (dedup_key ∘ snd) fst
                 (fold_left dedup_step (process_alerts alerts) [])); [done|].
      intros i [k v] Hi. apply list_elem_of_lookup_2 in Hi. by destruct (Hent k v Hi).
    - destruct (remove_duplicates (process_alerts alerts)) as [|b rest]; [cbn in Hout; lia|].
      unfold save_data, write_file, now, mbind, M_bind. cbn [fst snd files].
      rewrite lookup_insert_ne by done. rewrite lookup_insert_ne by done.
      apply lookup_insert_eq.
    - intros Hs. by rewrite <- (Hsel Hs).
    - intros Hs Hr. by rewrite <- (Hreq Hs Hr). }
  split; [|intros Hon; by destruct (Hconn Hon) as (_ & ?)].
  destruct (connection_ok env) eqn:Hon; [by destruct (Hconn eq_refl)|].
  unfold run_scraper, test_connection, mbind, M_bind, mret, M_ret. cbn [fst snd].
  rewrite Hon. vm_compute. lia.
Qed.

(** ** The label loops of the dam and fire steps *)

Lemma filter_length_app {A : Type} (f : A -> bool) (l1 l2 : list A) :
  length (List.filter f (l1 ++ l2))
  = (length (List.filter f l1) + length (List.filter f l2))%nat.
Proof. by rewrite List.filter_app, length_app. Qed.

Lemma filter_length_elem {A : Type} (f : A -> bool) (l : list A) (x : A) :
  x ∈ l -> f x = true -> (1 <= length (List.filter f l))%nat.
Proof.
  intros Hx Hf. apply list_elem_of_In in Hx.
  assert (In x (List.filter f l)) as Hin by (apply filter_In; done).
  destruct (List.filter f l); [done|cbn; lia].
Qed.

Lemma filter_length_all {A : Type} (f : A -> bool) (l : list A) :
  (forall x, x ∈ l -> f x = true) -> length (List.filter f l) = length l.
Proof.
  induction l as [|x l IH]; intros Hall; [done|]. cbn [List.filter].
  rewrite (Hall x) by apply list_elem_of_here. cbn [length]. f_equal.
  apply IH. intros y Hy. by apply Hall, list_elem_of_further.
Qed.

Section LoopFacts.
Context {F : Type} `{Num F} {G : Type} `{Geometry F G}.
Context {L R Row : Type}.
Variable geom_l : L -> option (point F).
Variable geom_r : R -> G.
Variable label : L -> nat.
Variable row_label : Row -> nat.
Variable init : L -> Row.
Variable upd : L * option (nat * R) -> nat * R -> Row -> Row.
Hypothesis label_init : forall l, row_label (init l) = label l.
Hypothesis label_upd : forall z ir r, row_label (upd z ir r) = row_label r.

Local Abbreviation step := (loop_step label row_label upd).
Local Abbreviation same_label z := (fun z' : L * option (nat * R) => Nat.eqb (label z'.1) (label z.1)).

Lemma sjoin_zone_rows (rows : list L) (right : list R) :
  sjoin_left geom_l geom_r rows right = rows ≫= zone_rows geom_l geom_r right.
Proof.
  unfold sjoin_left. induction rows as [|l rows IH]; [done|].
  cbn [mbind list_bind]. f_equal; [|exact IH].
  unfold zone_rows, matches. by destruct (geom_l l).
Qed.

Lemma zone_rows_spec (right : list R) (l : L) :
  zone_rows geom_l geom_r right l <> []
  /\ (forall z, z ∈ zone_rows geom_l geom_r right l -> z.1 = l)
  /\ (length (matches geom_l geom_r right l) <= length (zone_rows geom_l geom_r right l))%nat.
Proof.
  unfold zone_rows. destruct (matches geom_l geom_r right l) as [|ir ms].
  - split; [done|]. split; [|cbn; lia].
    intros z Hz%list_elem_of_singleton. by subst z.
  - split; [done|]. split; [|by rewrite length_fmap].
    intros z (ir' & -> & _)%list_elem_of_fmap. done.
Qed.

Lemma zone_rows_single (right : list R) (l : L) :
  (length (matches geom_l geom_r right l) <= 1)%nat ->
  zone_rows geom_l geom_r right l = [zone_of geom_l geom_r right l].
Proof.
  unfold zone_rows, zone_of.
  destruct (matches geom_l geom_r right l) as [|ir [|ir' ms]]; cbn; [done|done|lia].
Qed.

Lemma zones_single (rows : list L) (right : list R) :
  (forall l, l ∈ rows -> (length (matches geom_l geom_r right l) <= 1)%nat) ->
  sjoin_left geom_l geom_r rows right = zone_of geom_l geom_r right <$> rows.
Proof.
  intros Hone. rewrite sjoin_zone_rows.
  induction rows as [|l rows IH]; [done|].
  cbn [mbind list_bind fmap list_fmap].
  rewrite zone_rows_single by (apply Hone, list_elem_of_here).
  cbn [app]. f_equal. apply IH. intros l' Hl'. by apply Hone, list_elem_of_further.
Qed.

Lemma label_injective_on (rows : list L) (l l' : L) :
  NoDup (label <$> rows) -> l ∈ rows -> l' ∈ rows -> label l' = label l -> l' = l.
Proof.
  induction rows as [|h rows IH]; intros Hnd Hl Hl' Heq; [by apply elem_of_nil in Hl|].
  rewrite fmap_cons in Hnd. apply NoDup_cons in Hnd as [Hfresh Hnd].
  apply elem_of_cons in Hl as [->|Hl]; apply elem_of_cons in Hl' as [->|Hl'].
  - done.
  - exfalso. apply Hfresh. rewrite <- Heq. apply list_elem_of_fmap. eauto.
  - exfalso. apply Hfresh. rewrite Heq. apply list_elem_of_fmap. eauto.
  - by apply IH.
Qed.

Lemma zones_of_one_label (rows : list L) (right : list R) (l : L) :
  NoDup (label <$> rows) -> l ∈ rows ->
  List.filter (same_label (zone_of geom_l geom_r right l))
    (zone_of geom_l geom_r right <$> rows)
  = [zone_of geom_l geom_r right l].
Proof.
  induction rows as [|l' rows IH]; intros Hnd Hin; [by apply elem_of_nil in Hin|].
  rewrite fmap_cons in Hnd. apply NoDup_cons in Hnd as [Hfresh Hnd].
  cbn [fmap list_fmap List.filter zone_of fst].
  apply elem_of_cons in Hin as [->|Hin].
  - rewrite Nat.eqb_refl. f_equal. apply filter_none.
    intros z (l'' & -> & Hl'')%list_elem_of_fmap. cbn [zone_of fst].
    apply Nat.eqb_neq. intros Heq. apply Hfresh. apply list_elem_of_fmap. eauto.
  - destruct (Nat.eqb (label l') (label l)) eqn:E.
    + apply Nat.eqb_eq in E. exfalso. apply Hfresh. rewrite E.
      apply list_elem_of_fmap. eauto.
    + by apply IH.
Qed.

Lemma progress_label (right : list R) (done : list L) (l : L) :
  row_label (progress geom_l geom_r label init upd right done l) = label l.
Proof.
  unfold progress, outcome. destruct (bool_decide _); [|apply label_init].
  destruct (head _); [|apply label_init]. by rewrite label_upd, label_init.
Qed.

(** The loop on rows with distinct labels, each inside at most one area. *)
Lemma loop_fold (rows : list L) (right : list R) :
  NoDup (label <$> rows) ->
  forall todo done, rows = done ++ todo ->
  fold_left (step (zone_of geom_l geom_r right <$> rows))
    (zone_of geom_l geom_r right <$> todo)
    (Some (progress geom_l geom_r label init upd right done <$> rows))
  = Some (outcome geom_l geom_r init upd right <$> rows).
Proof.
  intros Hnd. induction todo as [|l todo IH]; intros done Hsplit.
  - rewrite app_nil_r in Hsplit. subst done. cbn [fmap list_fmap fold_left]. f_equal.
    apply list_fmap_ext. intros i l Hl. unfold progress.
    rewrite bool_decide_eq_true_2; [done|].
    apply list_elem_of_fmap. exists l. split; [done|]. by eapply list_elem_of_lookup_2.
  - cbn [fmap list_fmap fold_left].
    assert (l ∈ rows) as Hl.
    { rewrite Hsplit. apply elem_of_app. right. apply list_elem_of_here. }
    assert (label l ∉ label <$> done) as Hfresh.
    { rewrite Hsplit, fmap_app, fmap_cons in Hnd.
      apply NoDup_app in Hnd as (_ & Hdisj & _). intros Hin. apply (Hdisj _ Hin).
      apply list_elem_of_here. }
    assert (forall l', l' ∈ rows ->
              progress geom_l geom_r label init upd right (done ++ [l]) l'
              = if Nat.eqb (label l') (label l)
                then outcome geom_l geom_r init upd right l'
                else progress geom_l geom_r label init upd right done l') as Hnext.
    { intros l' Hl'. unfold progress. rewrite fmap_app. cbn [fmap list_fmap].
      destruct (Nat.eqb (label l') (label l)) eqn:E.
      - apply Nat.eqb_eq in E. rewrite bool_decide_eq_true_2; [done|].
        apply elem_of_app. right. rewrite E. apply list_elem_of_here.
      - apply Nat.eqb_neq in E.
        destruct (bool_decide (label l' ∈ label <$> done)) eqn:D.
        + apply bool_decide_eq_true in D. rewrite bool_decide_eq_true_2; [done|].
          apply elem_of_app. by left.
        + apply bool_decide_eq_false in D. rewrite bool_decide_eq_false_2; [done|].
          intros Hx. apply elem_of_app in Hx as [Hx|Hx]; [done|].
          apply list_elem_of_singleton in Hx. done. }
    replace (step (zone_of geom_l geom_r right <$> rows)
               (Some (progress geom_l geom_r label init upd right done <$> rows))
               (zone_of geom_l geom_r right l))
      with (Some (progress geom_l geom_r label init upd right (done ++ [l]) <$> rows)).
    { apply IH. by rewrite <- app_assoc. }
    unfold loop_step. cbn [mbind option_bind].
    rewrite (zones_of_one_label rows right l Hnd Hl).
    unfold zone_of at 1. cbn [snd].
    destruct (head (matches geom_l geom_r right l)) as [ir|] eqn:Em.
    + f_equal. rewrite <- list_fmap_compose.
      apply list_fmap_ext. intros i l' Hl'. apply list_elem_of_lookup_2 in Hl'.
      rewrite (Hnext l' Hl'). cbn [compose]. rewrite progress_label. cbn [zone_of fst].
      destruct (Nat.eqb (label l') (label l)) eqn:E; [|done].
      apply Nat.eqb_eq in E. pose proof (label_injective_on rows l l' Hnd Hl Hl' E) as ->.
      unfold progress. rewrite bool_decide_eq_false_2 by done.
      unfold outcome. by rewrite Em.
    + f_equal. apply list_fmap_ext. intros i l' Hl'. apply list_elem_of_lookup_2 in Hl'.
      rewrite (Hnext l' Hl').
      destruct (Nat.eqb (label l') (label l)) eqn:E; [|done].
      apply Nat.eqb_eq in E. pose proof (label_injective_on rows l l' Hnd Hl Hl' E) as ->.
      unfold progress. rewrite bool_decide_eq_false_2 by done.
      unfold outcome. by rewrite Em.
Qed.

Lemma loop_succeeds (rows : list L) (right : list R) :
  NoDup (label <$> rows) ->
  (forall l, l ∈ rows -> (length (matches geom_l geom_r right l) <= 1)%nat) ->
  fold_left (step (sjoin_left geom_l geom_r rows right))
    (sjoin_left geom_l geom_r rows right) (Some (init <$> rows))
  = Some (outcome geom_l geom_r init upd right <$> rows).
Proof.
  intros Hnd Hone. rewrite (zones_single rows right Hone).
  rewrite <- (loop_fold rows right Hnd rows [] eq_refl).
  do 2 f_equal.
Qed.

Lemma loop_fold_None (zones zs : list (L * option (nat * R))) :
  fold_left (step zones) zs None = None.
Proof. induction zs as [|z zs IH]; [done|]. exact IH. Qed.

Lemma loop_fold_Some (zones zs : list (L * option (nat * R))) (acc out : list Row) :
  fold_left (step zones) zs (Some acc) = Some out ->
  forall z, z ∈ zs -> length (List.filter (same_label z) zones) = 1%nat.
Proof.
  revert acc. induction zs as [|z0 zs IH]; intros acc Hfold z Hz;
    [by apply elem_of_nil in Hz|].
  cbn [fold_left] in Hfold.
  destruct (step zones (Some acc) z0) as [acc'|] eqn:Es;
    [|by rewrite loop_fold_None in Hfold].
  apply elem_of_cons in Hz as [->|Hz]; [|by eapply IH].
  unfold loop_step in Es. cbn [mbind option_bind] in Es.
  by destruct (List.filter (same_label z0) zones) as [|one [|one' rest]].
Qed.

Lemma zones_labels_distinct (rows : list L) (right : list R) :
  (forall z, z ∈ rows ≫= zone_rows geom_l geom_r right ->
     (length (List.filter (same_label z) (rows ≫= zone_rows geom_l geom_r right)) <= 1)%nat) ->
  NoDup (label <$> rows)
  /\ (forall l, l ∈ rows -> (length (matches geom_l geom_r right l) <= 1)%nat).
Proof.
  induction rows as [|l rows IH]; intros Hq.
  - split; [constructor|]. intros l Hl. by apply elem_of_nil in Hl.
  - cbn [mbind list_bind] in Hq.
    destruct (zone_rows_spec right l) as (Hne & Hfst & Hlen).
    destruct (zone_rows geom_l geom_r right l) as [|z zr] eqn:Ez; [done|].
    assert (forall z', z' ∈ z :: zr -> same_label z z' = true) as Hsame.
    { intros z' Hz'. cbn. rewrite (Hfst z' Hz'), (Hfst z (list_elem_of_here _ _)).
      apply Nat.eqb_refl. }
    pose proof (Hq z (list_elem_of_here _ _)) as Hz.
    rewrite filter_length_app, (filter_length_all _ (z :: zr) Hsame) in Hz.
    destruct IH as [Hnd Hmatch].
    { intros z' Hz'. etransitivity; [|apply (Hq z')].
      - rewrite filter_length_app. lia.
      - apply elem_of_app. by right. }
    split.
    + rewrite fmap_cons. apply NoDup_cons. split; [|done].
      intros (l' & Hlab & Hl')%list_elem_of_fmap.
      destruct (zone_rows_spec right l') as (Hne' & Hfst' & _).
      destruct (zone_rows geom_l geom_r right l') as [|z' zr'] eqn:Ez'; [done|].
      assert (z' ∈ rows ≫= zone_rows geom_l geom_r right) as Hin.
      { apply list_elem_of_bind. exists l'. split; [|done]. rewrite Ez'.
        apply list_elem_of_here. }
      assert (same_label z z' = true) as Hs.
      { cbn. rewrite (Hfst' z' (list_elem_of_here _ _)), (Hfst z (list_elem_of_here _ _)).
        apply Nat.eqb_eq. done. }
      pose proof (filter_length_elem _ _ z' Hin Hs). cbn [length] in Hz. lia.
    + intros l' [->|Hl']%elem_of_cons; [|by apply Hmatch].
      cbn [length] in Hz, Hlen. lia.
Qed.

(** The loop ends without an exception exactly when the labels are distinct
    and no row lies in two areas. *)
Lemma loop_result (rows : list L) (right : list R) (out : list Row) :
  fold_left (step (sjoin_left geom_l geom_r rows right))
    (sjoin_left geom_l geom_r rows right) (Some (init <$> rows)) = Some out
  <-> (NoDup (label <$> rows)
       /\ (forall l, l ∈ rows -> (length (matches geom_l geom_r right l) <= 1)%nat))
      /\ out = outcome geom_l geom_r init upd right <$> rows.
Proof.
  split.
  - intros Hfold.
    assert (NoDup (label <$> rows)
            /\ (forall l, l ∈ rows -> (length (matches geom_l geom_r right l) <= 1)%nat))
      as [Hnd Hone].
    { apply zones_labels_distinct. intros z Hz. rewrite <- sjoin_zone_rows in *.
      by rewrite (loop_fold_Some _ _ _ _ Hfold z Hz). }
    split; [done|]. rewrite (loop_succeeds rows right Hnd Hone) in Hfold. congruence.
  - intros [[Hnd Hone] ->]. by apply loop_succeeds.
Qed.
End LoopFacts.

Lemma filter_imap_pair {A : Type} (f : A -> bool) (l : list A) :
  (List.filter (fun ir : nat * A => f ir.2) (imap pair l)).*2 = List.filter f l.
Proof.
  assert (forall (g : nat -> nat),
            (List.filter (fun ir : nat * A => f ir.2) (imap (fun i x => (g i, x)) l)).*2
            = List.filter f l) as Hgen.
  { induction l as [|x l IH]; intros g; [done|].
    cbn [imap List.filter snd]. destruct (f x).
    - rewrite fmap_cons. cbn [snd]. f_equal. apply (IH (g ∘ S)).
    - apply (IH (g ∘ S)). }
  apply (Hgen id).
Qed.

Lemma filter_fmap {A B : Type} (g : A -> B) (f : B -> bool) (l : list A) :
  List.filter f (g <$> l) = g <$> List.filter (fun x => f (g x)) l.
Proof.
  induction l as [|x l IH]; [done|]. cbn [fmap list_fmap List.filter].
  destruct (f (g x)); [rewrite fmap_cons; f_equal|]; exact IH.
Qed.

Section DamFireLoops.
Context {F : Type} `{Num F} {G : Type} `{Geometry F G}.

Lemma dam_step_loop (dam_gdf : list G) zones acc z :
  dam_step dam_gdf zones acc z
  = loop_step site_label dr_label (dam_upd dam_gdf) zones acc z.
Proof. reflexivity. Qed.

Lemma fire_step_loop zones acc z :
  fire_step (F:=F) (G:=G) zones acc z = loop_step fire_label rr_label fire_upd zones acc z.
Proof. reflexivity. Qed.

Lemma dam_matches (dam_gdf : list G) (r : admin_row F) :
  (matches (fun r : admin_row F => geometry (ar_site r)) id
     ((fun g => buffer g (dec 45 1000)) <$> dam_gdf) r).*2
  = (fun g => buffer g (dec 45 1000)) <$> dams_around dam_gdf (ar_site r).
Proof.
  unfold matches, dams_around, around. destruct (geometry (ar_site r)) as [p|]; [|done].
  rewrite (filter_imap_pair (fun g => within p (id g))). apply filter_fmap.
Qed.

Lemma fire_matches (fire_gdf : list (fire_area G)) (r : dam_row F) :
  (matches (fun r : dam_row F => geometry (ar_site (dr_admin r))) fa_geometry fire_gdf r).*2
  = fires_around fire_gdf (ar_site (dr_admin r)).
Proof.
  unfold matches, fires_around, around. destruct (geometry (ar_site (dr_admin r))) as [p|]; [|done].
  apply (filter_imap_pair (fun a => within p (fa_geometry a))).
Qed.

Lemma dam_outcome_loop (dam_gdf : list G) (r : admin_row F) :
  outcome (fun r : admin_row F => geometry (ar_site r)) id no_dam_row (dam_upd dam_gdf)
    ((fun g => buffer g (dec 45 1000)) <$> dam_gdf) r
  = dam_outcome dam_gdf r.
Proof.
  unfold outcome, dam_outcome. pose proof (dam_matches dam_gdf r) as Hm.
  destruct (matches _ _ _ r) as [|ir ms]; destruct (dams_around dam_gdf (ar_site r)) as [|d ds];
    try discriminate Hm; reflexivity.
Qed.

Lemma fire_outcome_loop (fire_gdf : list (fire_area G)) (r : dam_row F) :
  outcome (fun r : dam_row F => geometry (ar_site (dr_admin r))) fa_geometry
    (fun r => {| rr_dam := r; fire_risk_score := 0 |}) fire_upd fire_gdf r
  = fire_outcome fire_gdf r.
Proof.
  unfold outcome, fire_outcome. pose proof (fire_matches fire_gdf r) as Hm.
  destruct (matches _ _ _ r) as [|ir ms]; destruct (fires_around fire_gdf (ar_site (dr_admin r))) as [|d ds];
    try discriminate Hm; [reflexivity|].
  injection Hm as <- _. reflexivity.
Qed.

(** The dam step, for a frame of dams that is not empty. *)
Lemma dam_loop_result (heritage : list (admin_row F)) (dam_gdf : list G)
    (out : list (dam_row F)) :
  dam_gdf <> [] ->
  _calculate_dam_proximity_risk heritage dam_gdf = Some out
  <-> (NoDup (site_label <$> heritage)
       /\ (forall r, r ∈ heritage -> (length (dams_around dam_gdf (ar_site r)) <= 1)%nat))
      /\ out = dam_outcome dam_gdf <$> heritage.
Proof.
  intros Hdams.
  assert (_calculate_dam_proximity_risk heritage dam_gdf
          = fold_left
              (loop_step site_label dr_label (dam_upd dam_gdf)
                 (sjoin_left (fun r : admin_row F => geometry (ar_site r)) id heritage
                    ((fun g => buffer g (dec 45 1000)) <$> dam_gdf)))
              (sjoin_left (fun r : admin_row F => geometry (ar_site r)) id heritage
                 ((fun g => buffer g (dec 45 1000)) <$> dam_gdf))
              (Some (no_dam_row <$> heritage))) as ->.
  { unfold _calculate_dam_proximity_risk. by destruct dam_gdf. }
  rewrite (loop_result (fun r : admin_row F => geometry (ar_site r)) id site_label dr_label
             no_dam_row (dam_upd dam_gdf)) by done.
  assert (forall r, length (matches (fun r : admin_row F => geometry (ar_site r)) id
                              ((fun g => buffer g (dec 45 1000)) <$> dam_gdf) r)
                    = length (dams_around dam_gdf (ar_site r))) as Hlen.
  { intros r. by rewrite <- (length_fmap snd), dam_matches, length_fmap. }
  assert (outcome (fun r : admin_row F => geometry (ar_site r)) id no_dam_row
            (dam_upd dam_gdf) ((fun g => buffer g (dec 45 1000)) <$> dam_gdf) <$> heritage
          = dam_outcome dam_gdf <$> heritage) as ->.
  { apply list_fmap_ext. intros _ r _. apply dam_outcome_loop. }
  split; intros [[Hnd Hone] ->]; (split; [split; [done|]|done]);
    intros r Hr; specialize (Hone r Hr); by rewrite ?Hlen in *.
Qed.

Lemma fire_loop_result (heritage : list (dam_row F)) (fire_gdf : list (fire_area G))
    (out : list (risk_row F)) :
  fire_gdf <> [] ->
  _calculate_fire_risk heritage fire_gdf = Some out
  <-> (NoDup (fire_label <$> heritage)
       /\ (forall r, r ∈ heritage ->
             (length (fires_around fire_gdf (ar_site (dr_admin r))) <= 1)%nat))
      /\ out = fire_outcome fire_gdf <$> heritage.
Proof.
  intros Hfires.
  assert (_calculate_fire_risk heritage fire_gdf
          = fold_left
              (loop_step fire_label rr_label fire_upd
                 (sjoin_left (fun r : dam_row F => geometry (ar_site (dr_admin r)))
                    fa_geometry heritage fire_gdf))
              (sjoin_left (fun r : dam_row F => geometry (ar_site (dr_admin r)))
                 fa_geometry heritage fire_gdf)
              (Some ((fun r => {| rr_dam := r; fire_risk_score := 0 |}) <$> heritage))) as ->.
  { unfold _calculate_fire_risk. by destruct fire_gdf. }
  rewrite (loop_result (fun r : dam_row F => geometry (ar_site (dr_admin r))) fa_geometry
             fire_label rr_label (fun r => {| rr_dam := r; fire_risk_score := 0 |}) fire_upd)
    by done.
  assert (forall r, length (matches (fun r : dam_row F => geometry (ar_site (dr_admin r)))
                              fa_geometry fire_gdf r)
                    = length (fires_around fire_gdf (ar_site (dr_admin r)))) as Hlen.
  { intros r. by rewrite <- (length_fmap snd), fire_matches. }
  assert (outcome (fun r : dam_row F => geometry (ar_site (dr_admin r))) fa_geometry
            (fun r => {| rr_dam := r; fire_risk_score := 0 |}) fire_upd fire_gdf <$> heritage
          = fire_outcome fire_gdf <$> heritage) as ->.
  { apply list_fmap_ext. intros _ r _. apply fire_outcome_loop. }
  split; intros [[Hnd Hone] ->]; (split; [split; [done|]|done]);
    intros r Hr; specialize (Hone r Hr); by rewrite ?Hlen in *.
Qed.
End DamFireLoops.

Lemma risk_score_range (level : string) : 1 <= default 2 (risk_scores !! level) <= 5.
Proof.
  destruct (risk_scores !! level) as [z|] eqn:E; simpl; [|lia].
  apply elem_of_list_to_map_2 in E.
  repeat (apply elem_of_cons in E as [E|E]; [injection E as _ ->; lia|]).
  by apply elem_of_nil in E.
Qed.

Section PipelineFacts.
Context {F : Type} `{Num F} {G : Type} `{Geometry F G}.

Lemma around_nil {R : Type} (geom_r : R -> G) (s : heritage_site F) :
  around geom_r [] s = [].
Proof. unfold around. by destruct (geometry s). Qed.

(** The dam step on any frame of dams. *)
Lemma dam_step_spec (heritage : list (admin_row F)) (dam_gdf : list G)
    (out : list (dam_row F)) :
  _calculate_dam_proximity_risk heritage dam_gdf = Some out
  <-> ((dam_gdf <> [] -> NoDup (site_label <$> heritage))
       /\ (forall r, r ∈ heritage -> (length (dams_around dam_gdf (ar_site r)) <= 1)%nat))
      /\ out = dam_outcome dam_gdf <$> heritage.
Proof.
  destruct dam_gdf as [|d dams].
  - assert (dam_outcome [] <$> heritage = no_dam_row <$> heritage) as ->.
    { apply list_fmap_ext. intros _ r _. unfold dam_outcome, dams_around.
      by rewrite around_nil. }
    cbn [_calculate_dam_proximity_risk]. split.
    + intros [= <-]. split; [|done]. split; [done|].
      intros r _. unfold dams_around. rewrite around_nil. cbn. lia.
    + by intros [_ ->].
  - rewrite dam_loop_result by done. split.
    + intros [[Hnd Hone] ->]. done.
    + intros [[Hnd Hone] ->]. split; [|done]. split; [by apply Hnd|done].
Qed.

Lemma fire_step_spec (heritage : list (dam_row F)) (fire_gdf : list (fire_area G))
    (out : list (risk_row F)) :
  _calculate_fire_risk heritage fire_gdf = Some out
  <-> ((fire_gdf <> [] -> NoDup (fire_label <$> heritage))
       /\ (forall r, r ∈ heritage ->
             (length (fires_around fire_gdf (ar_site (dr_admin r))) <= 1)%nat))
      /\ out = fire_outcome fire_gdf <$> heritage.
Proof.
  destruct fire_gdf as [|d fires].
  - assert (fire_outcome [] <$> heritage
            = (fun r => {| rr_dam := r; fire_risk_score := 0 |}) <$> heritage) as ->.
    { apply list_fmap_ext. intros _ r _. unfold fire_outcome, fires_around.
      by rewrite around_nil. }
    cbn [_calculate_fire_risk]. split.
    + intros [= <-]. split; [|done]. split; [done|].
      intros r _. unfold fires_around. rewrite around_nil. cbn. lia.
    + by intros [_ ->].
  - rewrite fire_loop_result by done. split.
    + intros [[Hnd Hone] ->]. done.
    + intros [[Hnd Hone] ->]. split; [|done]. split; [by apply Hnd|done].
Qed.

Lemma dam_outcome_admin (dam_gdf : list G) (r : admin_row F) :
  dr_admin (dam_outcome dam_gdf r) = r.
Proof. unfold dam_outcome. by destruct (dams_around dam_gdf (ar_site r)). Qed.

Lemma series_min_Some (ds : list F) : ds <> [] -> is_Some (series_min ds).
Proof. destruct ds; [done|]. intros _. by eexists. Qed.

Lemma dam_outcome_cases (dam_gdf : list G) (r : admin_row F) :
  (dams_around dam_gdf (ar_site r) = []
   /\ dam_risk_score (dam_outcome dam_gdf r) = 0
   /\ nearest_dam_distance (dam_outcome dam_gdf r) = None)
  \/ (dams_around dam_gdf (ar_site r) <> []
      /\ dam_risk_score (dam_outcome dam_gdf r) = 3
      /\ is_Some (nearest_dam_distance (dam_outcome dam_gdf r))).
Proof.
  unfold dam_outcome. destruct (dams_around dam_gdf (ar_site r)) as [|d ds] eqn:E.
  - left. done.
  - right. split; [done|]. split; [done|]. cbn [nearest_dam_distance].
    unfold dams_around, around in E. unfold dam_distance_km.
    destruct (geometry (ar_site r)) as [p|]; [|done]. cbn [mbind option_bind].
    destruct dam_gdf as [|d0 dams]; [done|]. cbn. by eexists.
Qed.

Lemma fire_outcome_range (fire_gdf : list (fire_area G)) (r : dam_row F) :
  rr_dam (fire_outcome fire_gdf r) = r
  /\ 0 <= fire_risk_score (fire_outcome fire_gdf r) <= 5
  /\ (fire_risk_score (fire_outcome fire_gdf r) = 0
      <-> fires_around fire_gdf (ar_site (dr_admin r)) = []).
Proof.
  unfold fire_outcome. cbn [rr_dam fire_risk_score]. split; [done|].
  destruct (fires_around fire_gdf (ar_site (dr_admin r))) as [|a rest]; [split; [lia|done]|].
  pose proof (risk_score_range (fa_risk_level a)). split; [lia|]. split; [lia|done].
Qed.

(** *** The sites of the rows of the join *)

Lemma join_cons (s : heritage_site F) (heritage : list (heritage_site F))
    (boundaries : list (boundary G)) :
  _spatial_join_heritage_municipalities (s :: heritage) boundaries
  = _spatial_join_heritage_municipalities [s] boundaries
    ++ _spatial_join_heritage_municipalities heritage boundaries.
Proof.
  rewrite (spatial_join_bind (s :: heritage)), (spatial_join_bind heritage). reflexivity.
Qed.

Lemma join_site_sites (s : heritage_site F) (boundaries : list (boundary G)) :
  ar_site <$> _spatial_join_heritage_municipalities [s] boundaries
  = replicate (Nat.max 1 (length (municipalities_around boundaries s))) s.
Proof.
  rewrite spatial_join_site. unfold municipalities_around, around.
  destruct (geometry s) as [p|] eqn:Eg; [|done].
  rewrite <- (filter_imap_pair (fun b => within p (b_geometry b))), length_fmap.
  destruct (List.filter _ (imap pair boundaries)) as [|ir matches].
  - cbn. f_equal. unfold match_nearest. cbn. rewrite Eg.
    by destruct (nearest_boundary boundaries p).
  - rewrite <- list_fmap_compose.
    replace (Nat.max 1 (length (ir :: matches))) with (length (ir :: matches))
      by (cbn [length]; lia).
    generalize (ir :: matches). intros l. induction l; cbn; [done|]. by f_equal.
Qed.

Lemma join_row_site (heritage : list (heritage_site F)) (boundaries : list (boundary G))
    (s : heritage_site F) :
  s ∈ ar_site <$> _spatial_join_heritage_municipalities heritage boundaries <-> s ∈ heritage.
Proof.
  induction heritage as [|s' heritage IH].
  - split; intros Hs; by apply elem_of_nil in Hs.
  - rewrite join_cons, fmap_app, elem_of_app, join_site_sites, IH, elem_of_cons.
    rewrite elem_of_replicate. split.
    + intros [[-> _]|Hs]; [by left|by right].
    + intros [->|Hs]; [left; split; [done|lia]|by right].
Qed.

Lemma join_labels (heritage : list (heritage_site F)) (boundaries : list (boundary G)) :
  NoDup (site_label <$> _spatial_join_heritage_municipalities heritage boundaries)
  <-> NoDup (idx <$> heritage)
      /\ (forall s, s ∈ heritage ->
            (length (municipalities_around boundaries s) <= 1)%nat).
Proof.
  assert (forall rows : list (admin_row F), site_label <$> rows = idx <$> (ar_site <$> rows))
    as Hlab by (intros rows; by rewrite <- list_fmap_compose).
  rewrite Hlab. induction heritage as [|s heritage IH].
  - split; [|intros _; constructor]. intros _. split; [constructor|].
    intros s Hs. by apply elem_of_nil in Hs.
  - rewrite join_cons, !fmap_app, join_site_sites, fmap_cons.
    pose proof (join_row_site heritage boundaries) as Hsites.
    destruct (length (municipalities_around boundaries s)) as [|[|n]] eqn:En.
    + cbn [Nat.max replicate fmap list_fmap app]. rewrite !NoDup_cons, IH. split.
      * intros [Hfresh [Hnd Hone]]. split; [split; [|done]|].
        -- intros (s' & Hs' & Hin)%list_elem_of_fmap. apply Hfresh.
           apply list_elem_of_fmap. exists s'. split; [done|]. by apply Hsites.
        -- intros s' [->|Hs']%elem_of_cons; [lia|by apply Hone].
      * intros [[Hfresh Hnd] Hone]. split; [|split; [done|]].
        -- intros (s' & Hs' & Hin)%list_elem_of_fmap. apply Hfresh.
           apply list_elem_of_fmap. exists s'. split; [done|]. by apply Hsites.
        -- intros s' Hs'. by apply Hone, list_elem_of_further.
    + cbn [Nat.max replicate fmap list_fmap app]. rewrite !NoDup_cons, IH. split.
      * intros [Hfresh [Hnd Hone]]. split; [split; [|done]|].
        -- intros (s' & Hs' & Hin)%list_elem_of_fmap. apply Hfresh.
           apply list_elem_of_fmap. exists s'. split; [done|]. by apply Hsites.
        -- intros s' [->|Hs']%elem_of_cons; [lia|by apply Hone].
      * intros [[Hfresh Hnd] Hone]. split; [|split; [done|]].
        -- intros (s' & Hs' & Hin)%list_elem_of_fmap. apply Hfresh.
           apply list_elem_of_fmap. exists s'. split; [done|]. by apply Hsites.
        -- intros s' Hs'. by apply Hone, list_elem_of_further.
    + replace (Nat.max 1 (S (S n))) with (S (S n)) by lia.
      cbn [replicate fmap list_fmap app]. split.
      * intros Hnd. apply NoDup_cons in Hnd as [Hfresh _]. exfalso. apply Hfresh.
        apply list_elem_of_here.
      * intros [_ Hone]. specialize (Hone s (list_elem_of_here _ _)). lia.
Qed.

Lemma join_unique_sites (heritage : list (heritage_site F)) (boundaries : list (boundary G)) :
  (forall s, s ∈ heritage -> (length (municipalities_around boundaries s) <= 1)%nat) ->
  ar_site <$> _spatial_join_heritage_municipalities heritage boundaries = heritage.
Proof.
  induction heritage as [|s heritage IH]; intros Hone; [done|].
  rewrite join_cons, fmap_app, join_site_sites, IH.
  - specialize (Hone s (list_elem_of_here _ _)).
    by destruct (length (municipalities_around boundaries s)) as [|[|n]]; [..|lia].
  - intros s' Hs'. by apply Hone, list_elem_of_further.
Qed.

Lemma calculate_nil : _calculate_municipal_cemaden_risk (F:=F) [] = [].
Proof. reflexivity. Qed.

(** The whole computation: when it returns, and what. *)
Lemma pipeline_spec (heritage_gdf : list (heritage_site F)) (disaster_df : list alert)
    (dam_gdf : list G) (fire_gdf : list (fire_area G)) (boundaries_gdf : list (boundary G))
    (out : list (final_row F)) :
  calculate_comprehensive_risk heritage_gdf disaster_df dam_gdf fire_gdf boundaries_gdf
  = Some out
  <-> (disaster_df <> []
       /\ (dam_gdf <> [] \/ fire_gdf <> [] ->
           NoDup (idx <$> heritage_gdf)
           /\ (forall s, s ∈ heritage_gdf ->
                 (length (municipalities_around boundaries_gdf s) <= 1)%nat))
       /\ (forall s, s ∈ heritage_gdf ->
             (length (dams_around dam_gdf s) <= 1)%nat
             /\ (length (fires_around fire_gdf s) <= 1)%nat))
      /\ out = assessed_row disaster_df dam_gdf fire_gdf
                 <$> _spatial_join_heritage_municipalities heritage_gdf boundaries_gdf.
Proof.
  unfold calculate_comprehensive_risk.
  set (rows := _spatial_join_heritage_municipalities heritage_gdf boundaries_gdf).
  assert (forall P : heritage_site F -> Prop,
            (forall r, r ∈ rows -> P (ar_site r)) <-> (forall s, s ∈ heritage_gdf -> P s))
    as Hsites.
  { intros P. split.
    - intros HP s Hs. apply (join_row_site heritage_gdf boundaries_gdf) in Hs.
      apply list_elem_of_fmap in Hs as (r & -> & Hr). by apply HP.
    - intros HP r Hr. apply HP, (join_row_site heritage_gdf boundaries_gdf).
      apply list_elem_of_fmap. by exists r. }
  assert (fire_label <$> (dam_outcome dam_gdf <$> rows) = site_label <$> rows) as Hlab.
  { rewrite <- list_fmap_compose. apply list_fmap_ext. intros _ r _.
    unfold fire_label, site_label. cbn [compose]. by rewrite dam_outcome_admin. }
  assert (forall fires_ok : Prop,
            (forall r, r ∈ dam_outcome dam_gdf <$> rows ->
               (length (fires_around fire_gdf (ar_site (dr_admin r))) <= 1)%nat)
            <-> (forall s, s ∈ heritage_gdf -> (length (fires_around fire_gdf s) <= 1)%nat))
    as Hfires.
  { intros _. rewrite <- (Hsites (fun s => (length (fires_around fire_gdf s) <= 1)%nat)).
    split.
    - intros HP r Hr. specialize (HP (dam_outcome dam_gdf r)).
      rewrite dam_outcome_admin in HP. apply HP, list_elem_of_fmap. by exists r.
    - intros HP r (r0 & -> & Hr0)%list_elem_of_fmap. rewrite dam_outcome_admin.
      by apply HP. }
  pose proof (Hsites (fun s => (length (dams_around dam_gdf s) <= 1)%nat)) as Hdams.
  pose proof (join_labels heritage_gdf boundaries_gdf) as Hjoin. fold rows in Hjoin.
  split.
  - intros Hrun.
    destruct (_calculate_dam_proximity_risk rows dam_gdf) as [d|] eqn:Ed; [|done].
    apply dam_step_spec in Ed as [[Hd1 Hd2] ->]. cbn [mbind option_bind] in Hrun.
    destruct (_calculate_fire_risk (dam_outcome dam_gdf <$> rows) fire_gdf) as [f|] eqn:Ef;
      [|done].
    apply fire_step_spec in Ef as [[Hf1 Hf2] ->]. cbn [mbind option_bind] in Hrun.
    rewrite Hlab in Hf1.
    destruct disaster_df as [|a df]; [done|].
    rewrite combine_calculate in Hrun by done. injection Hrun as <-.
    split; [split; [done|split]|].
    + intros [Hne|Hne]; apply Hjoin; [by apply Hd1|by apply Hf1].
    + intros s Hs. split; [by apply Hdams|by apply (Hfires True)].
    + rewrite <- !list_fmap_compose. reflexivity.
  - intros [(Hne & Hlabels & Hareas) ->].
    assert (_calculate_dam_proximity_risk rows dam_gdf = Some (dam_outcome dam_gdf <$> rows))
      as ->.
    { apply dam_step_spec. split; [split|done].
      - intros Hd. apply Hjoin, Hlabels. by left.
      - apply Hdams. intros s Hs. by destruct (Hareas s Hs). }
    cbn [mbind option_bind].
    assert (_calculate_fire_risk (dam_outcome dam_gdf <$> rows) fire_gdf
            = Some (fire_outcome fire_gdf <$> (dam_outcome dam_gdf <$> rows))) as ->.
    { apply fire_step_spec. split; [split|done].
      - intros Hf. rewrite Hlab. apply Hjoin, Hlabels. by right.
      - apply (Hfires True). intros s Hs. by destruct (Hareas s Hs). }
    cbn [mbind option_bind]. rewrite combine_calculate by done.
    rewrite <- !list_fmap_compose. reflexivity.
Qed.
End PipelineFacts.
